(** * cart_opt_ctrl: Cartesian optimisation controller and trajectory generator

    A shallow embedding of the two Orocos components of the repository,

    - [KDLTrajCompute] (src/compute_traj_comp.cpp), the trajectory generator,
    - [CartOptCtrl]    (src/cart_opt_ctrl.cpp), the QP based controller,

    over an arbitrary real field [R] standing for C++ [double] (rounding is
    not modelled).  Eigen vectors and matrices are MathComp matrices.  The
    libraries the components call (KDL, tf, qpOASES, the kinematic model) are
    interfaces: records of operations whose results the components only pass
    around.  Port writes, solver calls and log lines are returned as lists of
    events, one list per hook invocation. *)

Set Warnings "-notation-overridden,-ambiguous-paths,-rewrite-rw".
From HB Require Import structures.
From mathcomp Require Import boot order algebra.

Set Implicit Arguments.
Unset Strict Implicit.
Unset Printing Implicit Defensive.

Import Order.TTheory GRing.Theory Num.Theory.
Local Open Scope ring_scope.

(** ** KDL frames

    The part of [kdl/frames.hpp] the components use.  Vectors and twists are
    concrete; rotations are kept behind [kdlRotation], because their
    difference goes through an axis-angle extraction. *)

Section KDLFrames.

Variable R : realFieldType.

Record Vector := mkVector { vx : R; vy : R; vz : R }.

Definition Vector_Zero := mkVector 0 0 0.

Definition Vector_add (a b : Vector) :=
  mkVector (vx a + vx b) (vy a + vy b) (vz a + vz b).

Definition Vector_sub (a b : Vector) :=
  mkVector (vx a - vx b) (vy a - vy b) (vz a - vz b).

(** [operator*(const Vector&, const Vector&)] of KDL is the cross product. *)
Definition Vector_mul (a b : Vector) :=
  mkVector (vy a * vz b - vz a * vy b)
           (vz a * vx b - vx a * vz b)
           (vx a * vy b - vy a * vx b).

(** [dot(const Vector&, const Vector&)]. *)
Definition dot (a b : Vector) : R := vx a * vx b + vy a * vy b + vz a * vz b.

(** [Vector::operator()(int)]. *)
Definition Vector_get (v : Vector) (i : nat) : R :=
  match i with 0%N => vx v | 1%N => vy v | _ => vz v end.

Record Twist := mkTwist { vel : Vector; rot : Vector }.

Definition Twist_Zero := mkTwist Vector_Zero Vector_Zero.

(** [Twist::operator()(int)]: indices 0..2 address [vel], 3..5 [rot]. *)
Definition Twist_get (t : Twist) (i : nat) : R :=
  if (i < 3)%N then Vector_get (vel t) i else Vector_get (rot t) (i - 3).

(** [diff(a, b, dt = 1)] on vectors and twists: [(b - a) / dt]. *)
Definition diff_Vector (a b : Vector) := Vector_sub b a.

Definition diff_Twist (a b : Twist) :=
  mkTwist (diff_Vector (vel a) (vel b)) (diff_Vector (rot a) (rot b)).

(** Rotations: the type, the identity and [diff(R_a_b1, R_a_b2)], the
    rotation vector that turns the first orientation into the second. *)
Record kdlRotation := KdlRotation {
  Rotation : Type;
  Rotation_Identity : Rotation;
  diff_Rotation : Rotation -> Rotation -> Vector
}.

Variable K : kdlRotation.

Record Frame := mkFrame { Frame_M : Rotation K; Frame_p : Vector }.

(** A default constructed [KDL::Frame]. *)
Definition Frame_Identity := mkFrame (Rotation_Identity K) Vector_Zero.

(** [diff(F_a_b1, F_a_b2, dt = 1)] on frames. *)
Definition diff_Frame (a b : Frame) :=
  mkTwist (diff_Vector (Frame_p a) (Frame_p b))
          (diff_Rotation (Frame_M a) (Frame_M b)).

(** ** KDL paths, velocity profiles and trajectories

    The objects [computeTrajectory] allocates, as the constructor calls that
    build them. *)

Inductive Path :=
| Path_RoundedComposite of R & R & seq Frame  (* radius, eqradius, points added *)
| Path_Point of Frame.

(** [VelocityProfile_Trap(maxvel, maxacc)]; [trap_set] holds the arguments of
    [SetProfile(pos1, pos2)] once it has been called. *)
Record VelocityProfile_Trap := mkTrap {
  trap_maxvel : R;
  trap_maxacc : R;
  trap_set : option (R * R)
}.

Definition SetProfile (v : VelocityProfile_Trap) (pos1 pos2 : R) :=
  mkTrap (trap_maxvel v) (trap_maxacc v) (Some (pos1, pos2)).

Inductive Trajectory :=
| Trajectory_Segment of Path & VelocityProfile_Trap
| Trajectory_Stationary of R & Frame.

(** [Trajectory_Composite]: the segments in the order they were [Add]ed. *)
Definition Trajectory_Composite := seq Trajectory.

End KDLFrames.

Arguments Vector_Zero {R}.
Arguments Twist_Zero {R}.

(** ** RTT ports

    [InputPort::read(sample)] returns a flow status; with [NoData] the sample
    variable is left untouched, otherwise it is overwritten. *)

Inductive FlowStatus := NoData | OldData | NewData.

Inductive PortRead (T : Type) :=
| ReadNoData
| ReadOldData of T
| ReadNewData of T.

Arguments ReadNoData {T}.

Definition read_status T (r : PortRead T) : FlowStatus :=
  match r with
  | ReadNoData => NoData
  | ReadOldData _ => OldData
  | ReadNewData _ => NewData
  end.

Definition read_sample T (r : PortRead T) (sample : T) : T :=
  match r with
  | ReadNoData => sample
  | ReadOldData v => v
  | ReadNewData v => v
  end.

Definition is_NoData (s : FlowStatus) : bool :=
  if s is NoData then true else false.

(** The same sample, flagged as new. *)
Definition as_NewData T (r : PortRead T) : PortRead T :=
  match r with
  | ReadNoData => ReadNoData
  | ReadOldData v => ReadNewData v
  | ReadNewData v => ReadNewData v
  end.

(** * The trajectory generator, [KDLTrajCompute] *)

Module TrajCompute.

Section Component.

Variable R : realFieldType.
Variable K : kdlRotation R.

(** What the component calls and does not define: ROS messages and tf, the
    KDL path and profile computations, the period of its activity. *)
Record Deps := mkDeps {
  Pose : Type;                       (* geometry_msgs::Pose *)
  Header : Type;                     (* std_msgs::Header *)
  Pose_default : Pose;
  (* tf::poseMsgToKDL *)
  poseMsgToKDL : Pose -> Frame K;
  (* tf_->transformPose(base_frame_, in, out); None: tf::TransformException *)
  transformPose : Header -> Pose -> option (Header * Pose);
  set_frame_id_base : Header -> Header;
  (* Path_RoundedComposite: true when Add of each point and Finish raise no
     KDL::Error *)
  RoundedComposite_ok : R -> R -> seq (Frame K) -> bool;
  Path_RoundedComposite_PathLength : R -> R -> seq (Frame K) -> R;
  (* VelocityProfile_Trap::Duration after SetProfile(pos1, pos2) *)
  Trap_Duration : R -> R -> R -> R -> R;
  Trajectory_Pos : Trajectory_Composite K -> R -> Frame K;
  Trajectory_Vel : Trajectory_Composite K -> R -> Twist R;
  Trajectory_Acc : Trajectory_Composite K -> R -> Twist R;
  (* TaskContext::getPeriod *)
  getPeriod : R
}.

Variable D : Deps.

(** [Path::PathLength]. *)
Definition PathLength (pa : Path K) : R :=
  match pa with
  | Path_RoundedComposite radius eqradius pts =>
      Path_RoundedComposite_PathLength D radius eqradius pts
  | Path_Point _ => 0
  end.

(** [VelocityProfile::Duration]; a profile on which [SetProfile] was never
    called still has the duration 0 its constructor gave it. *)
Definition VelocityProfile_Duration (v : VelocityProfile_Trap R) : R :=
  match trap_set v with
  | Some (pos1, pos2) => Trap_Duration D (trap_maxvel v) (trap_maxacc v) pos1 pos2
  | None => 0
  end.

(** [Trajectory::Duration]. *)
Definition Trajectory_Duration (tr : Trajectory K) : R :=
  match tr with
  | Trajectory_Segment _ v => VelocityProfile_Duration v
  | Trajectory_Stationary d _ => d
  end.

(** [Trajectory_Composite::Duration]: [Add] accumulates the durations. *)
Definition Duration (c : Trajectory_Composite K) : R :=
  \sum_(tr <- c) Trajectory_Duration tr.

(** The member variables.  [path_], [vel_profile_], [traject_] and
    [current_pos_], [current_vel_], [current_acc_] are only written on the way
    to [ctraject_] and to the output ports; they are left out. *)
Record KDLTrajCompute := mkKDLTrajCompute {
  vel_max_ : R;
  acc_max_ : R;
  radius_ : R;
  eqradius_ : R;
  waypoints_in_header : Header D;
  waypoints_in_poses : seq (Pose D);
  ctraject_ : Trajectory_Composite K;
  current_traj_time_ : R;
  traj_computed_ : bool;
  button_pressed_ : bool
}.

(** What a hook sends out. *)
Inductive Event :=
| SkippingPoint of nat  (* ROS_WARN_STREAM("Skipping point #" << i ...) *)
| TrajectoryPoint of R & Frame K & Twist R & Twist R
    (* the writes to the three point ports; the first field is the time the
       trajectory was sampled at *)
| PublishTrajectory of Trajectory_Composite K
    (* the preview of the trajectory written by publishTrajectory *)
| RosError.

(** *** computeTrajectory, the waypoint loop (lines 122-136) *)

(** The tolerance literal [0.01]. *)
Definition tolerance : R := 100%:R^-1.

(** The test of line 129, on [err = diff(frame, previous_frame)]. *)
Definition too_similar (err : Twist R) : bool :=
  [&& `|Twist_get err 0| < tolerance,
      `|Twist_get err 1| < tolerance &
      `|Twist_get err 2| < tolerance].

(** The locals of the loop, with the warnings logged so far. *)
Record loop_state := mkLoop {
  frame : Frame K;
  previous_frame : Frame K;
  waypoints : seq (Frame K);
  skipped : seq nat
}.

Definition loop_init : loop_state :=
  mkLoop (Frame_Identity K) (Frame_Identity K) [::] [::].

(** One iteration, for index [i] and pose [waypoints_in_.poses[i]]. *)
Definition loop_body (i : nat) (st : loop_state) (pose : Pose D) : loop_state :=
  let frame := poseMsgToKDL pose in
  if (0 < i)%N && too_similar (diff_Frame frame (previous_frame st))
  then mkLoop frame (previous_frame st) (waypoints st) (rcons (skipped st) i)
  else mkLoop frame frame (rcons (waypoints st) frame) (skipped st).

Fixpoint waypoint_loop (i : nat) (st : loop_state) (poses : seq (Pose D)) :
  loop_state :=
  match poses with
  | [::] => st
  | pose :: rest => waypoint_loop i.+1 (loop_body i st pose) rest
  end.

(** *** computeTrajectory (lines 116-170)

    The result is the returned flag, the new [ctraject_] and the events.
    The only calls that can raise [KDL::Error] are [Add] and [Finish] of the
    rounded path; [ctraject_] is then the empty composite allocated on
    line 138. *)
Definition computeTrajectory (c : KDLTrajCompute) :
  bool * Trajectory_Composite K * seq Event :=
  let st := waypoint_loop 0 loop_init (waypoints_in_poses c) in
  let warns := [seq SkippingPoint i | i <- skipped st] in
  let hold := Trajectory_Stationary (2%:R^-1) (frame st) in
  if (1 < size (waypoints st))%N then
    if RoundedComposite_ok D (radius_ c) (eqradius_ c) (waypoints st) then
      let path := Path_RoundedComposite (radius_ c) (eqradius_ c) (waypoints st) in
      let vel_profile :=
        SetProfile (mkTrap (vel_max_ c) (acc_max_ c) None) 0 (PathLength path) in
      let ctraject := [:: Trajectory_Segment path vel_profile; hold] in
      (true, ctraject, rcons warns (PublishTrajectory ctraject))
    else (false, [::], warns)
  else
    let vel_profile := mkTrap (vel_max_ c) (acc_max_ c) None in
    let ctraject :=
      [:: Trajectory_Segment (Path_Point (frame st)) vel_profile; hold] in
    (true, ctraject, rcons warns (PublishTrajectory ctraject)).

(** *** updateWaypoints (lines 40-80) *)

(** The transform loop of lines 49-53: [tmp_pose_stmp] is both the input and
    the output of [transformPose], so its header is threaded through.  On an
    exception the poses transformed so far have been stored. *)
Fixpoint transform_loop (h : Header D) (poses : seq (Pose D)) :
  seq (Pose D) * bool :=
  match poses with
  | [::] => ([::], true)
  | pose :: rest =>
      match transformPose h pose with
      | None => ([::], false)
      | Some (h', pose') =>
          let: (out, ok) := transform_loop h' rest in (pose' :: out, ok)
      end
  end.

(** [waypoints_in_.poses] after [resize(n)] and the stores of the loop. *)
Definition stored_poses (n : nat) (out : seq (Pose D)) : seq (Pose D) :=
  out ++ nseq (n - size out) (Pose_default D).

(** The service request: the header and the poses of [req.waypoints]. *)
Record Request := mkRequest {
  req_header : Header D;
  req_poses : seq (Pose D)
}.

(** Lines 40-63, up to the wait loop.  The result is [Some success] for
    [resp.success] when the loop is reached and [None] when the call has
    already returned [false]. *)
Definition updateWaypoints (c : KDLTrajCompute) (req : Request) :
  KDLTrajCompute * option bool * seq Event :=
  let: (out, ok) := transform_loop (req_header req) (req_poses req) in
  let poses := stored_poses (size (req_poses req)) out in
  if ~~ ok then
    (mkKDLTrajCompute (vel_max_ c) (acc_max_ c) (radius_ c) (eqradius_ c)
       (req_header req) poses (ctraject_ c) (current_traj_time_ c)
       (traj_computed_ c) (button_pressed_ c),
     None, [:: RosError])
  else
    let c1 :=
      mkKDLTrajCompute (vel_max_ c) (acc_max_ c) (radius_ c) (eqradius_ c)
        (set_frame_id_base (req_header req)) poses (ctraject_ c)
        (current_traj_time_ c) (traj_computed_ c) (button_pressed_ c) in
    let: (success, ctraject, evs) := computeTrajectory c1 in
    (mkKDLTrajCompute (vel_max_ c) (acc_max_ c) (radius_ c) (eqradius_ c)
       (waypoints_in_header c1) (waypoints_in_poses c1) ctraject 0 success
       (button_pressed_ c),
     Some success, evs).

(** One iteration of the wait loop of lines 65-77, given what the read of the
    button port returns.  [Some false]: the call returns [false] with
    [resp.success = false]; [Some true]: the loop has ended and the call
    returns [true]; [None]: the call sleeps and polls again. *)
Definition updateWaypoints_poll (c : KDLTrajCompute) (button : PortRead bool) :
  KDLTrajCompute * option bool :=
  if traj_computed_ c then
    let pressed := read_sample button (button_pressed_ c) in
    if ~~ is_NoData (read_status button) && pressed then
      (mkKDLTrajCompute (vel_max_ c) (acc_max_ c) (radius_ c) (eqradius_ c)
         (waypoints_in_header c) (waypoints_in_poses c) (ctraject_ c) 0 false
         pressed,
       Some false)
    else
      (mkKDLTrajCompute (vel_max_ c) (acc_max_ c) (radius_ c) (eqradius_ c)
         (waypoints_in_header c) (waypoints_in_poses c) (ctraject_ c)
         (current_traj_time_ c) (traj_computed_ c) pressed,
       None)
  else (c, Some true).

(** *** configureHook and updateHook (lines 83-114) *)

Definition configureHook (c : KDLTrajCompute) : KDLTrajCompute :=
  mkKDLTrajCompute (vel_max_ c) (acc_max_ c) (radius_ c) (eqradius_ c)
    (waypoints_in_header c) (waypoints_in_poses c) (ctraject_ c) 0 false
    (button_pressed_ c).

Definition updateHook (c : KDLTrajCompute) : KDLTrajCompute * seq Event :=
  if traj_computed_ c then
    if current_traj_time_ c < Duration (ctraject_ c) then
      let t := current_traj_time_ c in
      (mkKDLTrajCompute (vel_max_ c) (acc_max_ c) (radius_ c) (eqradius_ c)
         (waypoints_in_header c) (waypoints_in_poses c) (ctraject_ c)
         (t + getPeriod D) (traj_computed_ c) (button_pressed_ c),
       [:: TrajectoryPoint t (Trajectory_Pos D (ctraject_ c) t)
             (Trajectory_Vel D (ctraject_ c) t)
             (Trajectory_Acc D (ctraject_ c) t)])
    else
      (mkKDLTrajCompute (vel_max_ c) (acc_max_ c) (radius_ c) (eqradius_ c)
         (waypoints_in_header c) (waypoints_in_poses c) (ctraject_ c) 0 false
         (button_pressed_ c),
       [::])
  else (c, [::]).

(** [n] consecutive ticks and everything they emit. *)
Fixpoint ticks (n : nat) (c : KDLTrajCompute) : KDLTrajCompute * seq Event :=
  match n with
  | 0%N => (c, [::])
  | n'.+1 =>
      let: (c1, e1) := updateHook c in
      let: (c2, e2) := ticks n' c1 in
      (c2, e1 ++ e2)
  end.

(** The sampling times of the points in an event list. *)
Definition sample_times (evs : seq Event) : seq R :=
  flatten [seq (if e is TrajectoryPoint t _ _ _ then [:: t] else [::]) | e <- evs].

(** The spec's reading of the test: every one of the six components of the
    difference is below the tolerance. *)
Definition within_tolerance_on_all_axes (err : Twist R) : bool :=
  all (fun i => `|Twist_get err i| < tolerance) (iota 0 6).

(** [previous_frame] is the waypoint kept last. *)
Definition previous_is_last (st : loop_state) : Prop :=
  previous_frame st = last (Frame_Identity K) (waypoints st).

(** [b] passes the test of line 129 against [a]: it would be kept after
    [a]. *)
Definition apart (a b : Frame K) : bool := ~~ too_similar (diff_Frame b a).

(** *** publishTrajectory (lines 172-198)

    The loop [for (t = 0.0; t <= ctraject_->Duration(); t += 0.1)], with
    fuel for the iterations: the times at which the trajectory is sampled,
    [None] when the fuel runs out before the loop ends. *)
Fixpoint publish_loop (fuel : nat) (duration t : R) : option (seq R) :=
  match fuel with
  | 0%N => None
  | fuel'.+1 =>
      if t <= duration
      then omap (cons t) (publish_loop fuel' duration (t + 10%:R^-1))
      else Some [::]
  end.

(** The poses pushed to [pose_array.poses], and with the header to
    [path_ros.poses]; [poseKDLToMsg] is [tf::poseKDLToMsg].  The velocity
    and the acceleration are sampled and not used. *)
Definition publishTrajectory (poseKDLToMsg : Frame K -> Pose D) (fuel : nat)
  (ctraject : Trajectory_Composite K) : option (seq (Pose D)) :=
  omap (map (fun t => poseKDLToMsg (Trajectory_Pos D ctraject t)))
       (publish_loop fuel (Duration ctraject) 0).

End Component.

End TrajCompute.

(** * The controller, [CartOptCtrl] *)

Module CartOptCtrl.

(** [qpOASES::returnValue], as far as the controller tells the codes apart. *)
Inductive returnValue :=
| SUCCESSFUL_RETURN
| RET_MAX_NWSR_REACHED
| RET_INIT_FAILED
| RET_HOTSTART_FAILED
| RET_OTHER of nat.

Definition is_SUCCESSFUL_RETURN (ret : returnValue) : bool :=
  if ret is SUCCESSFUL_RETURN then true else false.

Section Component.

Variable R : realFieldType.
Variable K : kdlRotation R.

(** [arm.getNrOfJoints()]. *)
Variable dof : nat.

(** [KDL::FrameAcc], the type of a trajectory point. *)
Record FrameAcc := mkFrameAcc {
  GetFrame : Frame K;
  GetTwist : Twist R;
  GetAccTwist : Twist R
}.

(** The arguments of [SQProblem::init] and [SQProblem::hotstart]; a null
    pointer is [None].  The solver is built for [nC = 0] constraints. *)
Record QProblem := mkQProblem {
  qp_H : 'M[R]_dof;
  qp_g : 'cV[R]_dof;
  qp_A : option 'M[R]_(0, dof);
  qp_lb : option 'cV[R]_dof;
  qp_ub : option 'cV[R]_dof;
  qp_lbA : option 'cV[R]_0;
  qp_ubA : option 'cV[R]_0;
  qp_nWSR : nat
}.

(** The properties of the component that rosparam may override. *)
Record Properties (SegmentName : Type) := mkProperties {
  prop_FrameOfInterest : SegmentName;
  prop_P_gain : 'cV[R]_6;
  prop_D_gain : 'cV[R]_6
}.

(** What the component calls and does not define: the kinematic and dynamic
    model [rtt_ros_kdl_tools::ChainUtils], rosparam, and qpOASES. *)
Record Deps := mkDeps {
  SegmentName : Type;
  ChainUtils : Type;
  arm_init : ChainUtils -> bool * ChainUtils;
  (* arm.getSegmentName(arm.getNrOfSegments() - 1) *)
  last_segment_name : ChainUtils -> SegmentName;
  setState : ChainUtils -> 'cV[R]_dof -> 'cV[R]_dof -> ChainUtils;
  updateModel : ChainUtils -> ChainUtils;
  getSegmentPosition : ChainUtils -> SegmentName -> Frame K;
  getSegmentVelocity : ChainUtils -> SegmentName -> Twist R;
  getSegmentJacobian : ChainUtils -> SegmentName -> 'M[R]_(6, dof);
  getInertiaInverseMatrix : ChainUtils -> 'M[R]_dof;
  getCoriolisTorque : ChainUtils -> 'cV[R]_dof;
  getGravityTorque : ChainUtils -> 'cV[R]_dof;
  getSegmentJdotQdot : ChainUtils -> SegmentName -> Twist R;
  getAllPropertiesFromROSParam : Properties SegmentName -> Properties SegmentName;
  SQProblem : Type;
  (* new qpOASES::SQProblem(dof, 0) with the options of configureHook set *)
  SQProblem_new : SQProblem;
  SQProblem_init : SQProblem -> QProblem -> returnValue * SQProblem;
  SQProblem_hotstart : SQProblem -> QProblem -> returnValue * SQProblem;
  (* the vector getPrimalSolution stores; the controller asks for it only
     right after a successful return *)
  getPrimalSolution : SQProblem -> 'cV[R]_dof
}.

Variable D : Deps.

(** The member variables, and [qpoases_initialized], the static local of
    [updateHook], which lives as long as the process. *)
Record CartOptCtrl := mkCartOptCtrl {
  arm : ChainUtils D;
  ee_frame : SegmentName D;
  P_gain : 'cV[R]_6;
  D_gain : 'cV[R]_6;
  qpoases_solver : SQProblem D;
  qpoases_initialized : bool;
  has_first_command : bool;
  joint_position_in : 'cV[R]_dof;
  joint_velocity_in : 'cV[R]_dof;
  joint_torque_out : 'cV[R]_dof;
  traj_pt_in : FrameAcc;
  X_curr : Frame K;
  X_traj : Frame K;
  Xd_curr : Twist R;
  Xd_traj : Twist R;
  Xdd_traj : Twist R;
  X_err : Twist R;
  Xd_err : Twist R;
  Xdd_des : Twist R
}.

(** What a hook sends out: the solver calls and the port write. *)
Inductive Event :=
| QPInit of QProblem
| QPHotstart of QProblem
| JointTorqueCommand of 'cV[R]_dof
| LogError.

Definition is_JointTorqueCommand (e : Event) : bool :=
  if e is JointTorqueCommand _ then true else false.

Definition is_solve (e : Event) : bool :=
  match e with QPInit _ | QPHotstart _ => true | _ => false end.

(** What the ports hold when [updateHook] reads them. *)
Record Inputs := mkInputs {
  port_joint_position_in : PortRead 'cV[R]_dof;
  port_joint_velocity_in : PortRead 'cV[R]_dof;
  port_traj_in : PortRead FrameAcc
}.

(** *** Conversions between Eigen and KDL twists *)

(** [tf::twistEigenToKDL]. *)
Definition twistEigenToKDL (e : 'cV[R]_6) : Twist R :=
  mkTwist (mkVector (e (inord 0) 0) (e (inord 1) 0) (e (inord 2) 0))
          (mkVector (e (inord 3) 0) (e (inord 4) 0) (e (inord 5) 0)).

(** [tf::twistKDLToEigen]. *)
Definition twistKDLToEigen (k : Twist R) : 'cV[R]_6 :=
  \col_(i < 6) Twist_get k i.

(** *** configureHook, startHook, stopHook (lines 20-77, 249-252) *)

Definition default_P_gain : 'cV[R]_6 :=
  \col_(i < 6) (nth 0%N [:: 1000; 1000; 1000; 300; 300; 300]%N i)%:R.

Definition default_D_gain : 'cV[R]_6 :=
  \col_(i < 6) (nth 0%N [:: 50; 50; 50; 10; 10; 10]%N i)%:R.

Definition configureHook (c : CartOptCtrl) : bool * CartOptCtrl * seq Event :=
  let: (ok, arm1) := arm_init (arm c) in
  if ~~ ok then
    (false,
     mkCartOptCtrl arm1 (ee_frame c) (P_gain c) (D_gain c) (qpoases_solver c)
       (qpoases_initialized c) (has_first_command c) (joint_position_in c)
       (joint_velocity_in c) (joint_torque_out c) (traj_pt_in c) (X_curr c)
       (X_traj c) (Xd_curr c) (Xd_traj c) (Xdd_traj c) (X_err c) (Xd_err c)
       (Xdd_des c),
     [:: LogError])
  else
    let props :=
      getAllPropertiesFromROSParam
        (mkProperties (last_segment_name arm1) default_P_gain default_D_gain) in
    (true,
     mkCartOptCtrl arm1 (prop_FrameOfInterest props) (prop_P_gain props)
       (prop_D_gain props) (SQProblem_new D) (qpoases_initialized c)
       (has_first_command c) 0 0 0 (traj_pt_in c) (X_curr c) (X_traj c)
       (Xd_curr c) (Xd_traj c) (Xdd_traj c) (X_err c) (Xd_err c) (Xdd_des c),
     [::]).

Definition set_has_first_command (c : CartOptCtrl) (b : bool) : CartOptCtrl :=
  mkCartOptCtrl (arm c) (ee_frame c) (P_gain c) (D_gain c) (qpoases_solver c)
    (qpoases_initialized c) b (joint_position_in c) (joint_velocity_in c)
    (joint_torque_out c) (traj_pt_in c) (X_curr c) (X_traj c) (Xd_curr c)
    (Xd_traj c) (Xdd_traj c) (X_err c) (Xd_err c) (Xdd_des c).

Definition startHook (c : CartOptCtrl) : bool * CartOptCtrl :=
  (true, set_has_first_command c false).

Definition stopHook (c : CartOptCtrl) : CartOptCtrl :=
  set_has_first_command c false.

(** *** updateHook (lines 79-246) *)

(** Lines 190-197; the comma initialiser lists the limits of seven joints. *)
Definition torque_max : 'cV[R]_dof :=
  \col_(i < dof) (nth 0%N [:: 200; 200; 100; 100; 100; 30; 30]%N i)%:R.

Definition torque_min : 'cV[R]_dof := - torque_max.

(** Lines 137-209: the problem handed to the solver, from the refreshed
    model and the desired acceleration.  The [regularisation] matrix of
    lines 182-185 is computed and not used. *)
Definition qp_a (arm1 : ChainUtils D) (ee : SegmentName D) : 'M[R]_(6, dof) :=
  getSegmentJacobian arm1 ee *m getInertiaInverseMatrix arm1.

Definition qp_b (arm1 : ChainUtils D) (ee : SegmentName D) (Xdd_des : Twist R) :
  'cV[R]_6 :=
  let xdd_des := twistKDLToEigen Xdd_des in
  let jdot_qdot := twistKDLToEigen (getSegmentJdotQdot arm1 ee) in
  let a := qp_a arm1 ee in
  (- a) *m (getCoriolisTorque arm1 + getGravityTorque arm1) + jdot_qdot - xdd_des.

Definition build_qp (arm1 : ChainUtils D) (ee : SegmentName D)
  (Xdd_des : Twist R) : QProblem :=
  let a := qp_a arm1 ee in
  let b := qp_b arm1 ee Xdd_des in
  let H := 2%:R *: a^T *m a in
  let g := 2%:R *: a^T *m b in
  let lb := torque_min in
  let ub := torque_max in
  let nWSR := 1000%N in
  mkQProblem H g None (Some lb) (Some ub) None None nWSR.

(** Lines 211-230: the solver call.  The result is the return value, the
    solver afterwards, the new [qpoases_initialized] and the call made. *)
Definition solve (initialized : bool) (solver : SQProblem D) (qp : QProblem) :
  returnValue * SQProblem D * bool * seq Event :=
  if ~~ initialized then
    let: (ret, solver1) := SQProblem_init solver qp in
    (ret, solver1, is_SUCCESSFUL_RETURN ret, [:: QPInit qp])
  else
    let: (ret, solver1) := SQProblem_hotstart solver qp in
    (ret, solver1, true, [:: QPHotstart qp]).

(** Lines 232-242: [setZero], then the solution less gravity on success. *)
Definition torque_command (ret : returnValue) (solver1 : SQProblem D)
  (arm1 : ChainUtils D) : 'cV[R]_dof :=
  if is_SUCCESSFUL_RETURN ret
  then getPrimalSolution solver1 - getGravityTorque arm1
  else 0.

(** Lines 101-135: the desired motion, the errors and [Xdd_des].  The result
    is [traj_pt_in], [X_traj], [Xd_traj], [Xdd_traj] and [has_first_command]
    after line 123. *)
Definition desired (c : CartOptCtrl) (X_curr1 : Frame K)
  (traj : PortRead FrameAcc) :
  FrameAcc * Frame K * Twist R * Twist R * bool :=
  let pt := read_sample traj (traj_pt_in c) in
  let: (X_traj1, Xd_traj1, Xdd_traj1, has_first1) :=
    if ~~ is_NoData (read_status traj)
    then (GetFrame pt, GetTwist pt, GetAccTwist pt, true)
    else (X_traj c, Twist_Zero, Twist_Zero, has_first_command c) in
  let: (X_traj2, has_first2) :=
    if ~~ has_first1 then (X_curr1, true) else (X_traj1, has_first1) in
  (pt, X_traj2, Xd_traj1, Xdd_traj1, has_first2).

(** Lines 129-135; [*] on KDL vectors is [Vector_mul]. *)
Definition desired_acceleration (kp_ kd_ Xdd_traj1 X_err1 Xd_err1 : Twist R) :
  Twist R :=
  mkTwist
    (Vector_add (Vector_add (vel Xdd_traj1) (Vector_mul (vel kp_) (vel X_err1)))
                (Vector_mul (vel kd_) (vel Xd_err1)))
    (Vector_add (Vector_add (rot Xdd_traj1) (Vector_mul (rot kp_) (rot X_err1)))
                (Vector_mul (rot kd_) (rot Xd_err1))).

Definition updateHook (c : CartOptCtrl) (inp : Inputs) :
  CartOptCtrl * seq Event :=
  let fp := read_status (port_joint_position_in inp) in
  let q := read_sample (port_joint_position_in inp) (joint_position_in c) in
  let fv := read_status (port_joint_velocity_in inp) in
  let qd := read_sample (port_joint_velocity_in inp) (joint_velocity_in c) in
  if is_NoData fp || is_NoData fv then
    (mkCartOptCtrl (arm c) (ee_frame c) (P_gain c) (D_gain c)
       (qpoases_solver c) (qpoases_initialized c) (has_first_command c) q qd
       (joint_torque_out c) (traj_pt_in c) (X_curr c) (X_traj c) (Xd_curr c)
       (Xd_traj c) (Xdd_traj c) (X_err c) (Xd_err c) (Xdd_des c),
     [::])
  else
    let arm1 := updateModel (setState (arm c) q qd) in
    let X_curr1 := getSegmentPosition arm1 (ee_frame c) in
    let Xd_curr1 := getSegmentVelocity arm1 (ee_frame c) in
    let: (pt, X_traj1, Xd_traj1, Xdd_traj1, has_first1) :=
      desired c X_curr1 (port_traj_in inp) in
    let X_err1 := diff_Frame X_curr1 X_traj1 in
    let Xd_err1 := diff_Twist Xd_curr1 Xd_traj1 in
    let kp_ := twistEigenToKDL (P_gain c) in
    let kd_ := twistEigenToKDL (D_gain c) in
    let Xdd_des1 := desired_acceleration kp_ kd_ Xdd_traj1 X_err1 Xd_err1 in
    let qp := build_qp arm1 (ee_frame c) Xdd_des1 in
    let: (ret, solver1, initialized1, calls) :=
      solve (qpoases_initialized c) (qpoases_solver c) qp in
    let torque := torque_command ret solver1 arm1 in
    (mkCartOptCtrl arm1 (ee_frame c) (P_gain c) (D_gain c) solver1
       initialized1 has_first1 q qd torque pt X_curr1 X_traj1 Xd_curr1
       Xd_traj1 Xdd_traj1 X_err1 Xd_err1 Xdd_des1,
     calls ++ [:: JointTorqueCommand torque]).

(** Names for the values [updateHook] computes on the way, as functions of
    the state and the inputs of the period. *)
Definition refreshed_arm (c : CartOptCtrl) (inp : Inputs) : ChainUtils D :=
  updateModel
    (setState (arm c)
       (read_sample (port_joint_position_in inp) (joint_position_in c))
       (read_sample (port_joint_velocity_in inp) (joint_velocity_in c))).

Definition period_Xdd_des (c : CartOptCtrl) (inp : Inputs) : Twist R :=
  let arm1 := refreshed_arm c inp in
  let X_curr1 := getSegmentPosition arm1 (ee_frame c) in
  let Xd_curr1 := getSegmentVelocity arm1 (ee_frame c) in
  let: (_, X_traj1, Xd_traj1, Xdd_traj1, _) :=
    desired c X_curr1 (port_traj_in inp) in
  desired_acceleration (twistEigenToKDL (P_gain c)) (twistEigenToKDL (D_gain c))
    Xdd_traj1 (diff_Frame X_curr1 X_traj1) (diff_Twist Xd_curr1 Xd_traj1).

Definition period_qp (c : CartOptCtrl) (inp : Inputs) : QProblem :=
  build_qp (refreshed_arm c inp) (ee_frame c) (period_Xdd_des c inp).

(** The return value of the solver call of the period and the solver after
    it. *)
Definition period_ret (c : CartOptCtrl) (inp : Inputs) : returnValue :=
  (solve (qpoases_initialized c) (qpoases_solver c) (period_qp c inp)).1.1.1.

Definition period_solver (c : CartOptCtrl) (inp : Inputs) : SQProblem D :=
  (solve (qpoases_initialized c) (qpoases_solver c) (period_qp c inp)).1.1.2.

(** What can happen to a controller: a period, or one of the lifecycle
    hooks. *)
Inductive Op :=
| OpUpdate of Inputs
| OpStop
| OpStart
| OpConfigure.

Definition apply_op (c : CartOptCtrl) (op : Op) : CartOptCtrl :=
  match op with
  | OpUpdate inp => (updateHook c inp).1
  | OpStop => stopHook c
  | OpStart => (startHook c).2
  | OpConfigure => (configureHook c).1.2
  end.

Definition apply_ops (c : CartOptCtrl) (ops : seq Op) : CartOptCtrl :=
  foldl apply_op c ops.

(** A run of periods, one [Inputs] per period. *)
Definition run (c : CartOptCtrl) (inps : seq Inputs) : CartOptCtrl :=
  foldl (fun c inp => (updateHook c inp).1) c inps.

(** Joint feedback is available: neither read returns [NoData]. *)
Definition has_feedback (inp : Inputs) : bool :=
  ~~ is_NoData (read_status (port_joint_position_in inp))
  && ~~ is_NoData (read_status (port_joint_velocity_in inp)).

(** Everything a run of periods sends out, in order. *)
Fixpoint run_events (c : CartOptCtrl) (inps : seq Inputs) : seq Event :=
  match inps with
  | [::] => [::]
  | inp :: rest =>
      (updateHook c inp).2 ++ run_events (updateHook c inp).1 rest
  end.

(** The same inputs with every sample flagged as new. *)
Definition as_new_inputs (inp : Inputs) : Inputs :=
  mkInputs (as_NewData (port_joint_position_in inp))
           (as_NewData (port_joint_velocity_in inp))
           (as_NewData (port_traj_in inp)).

(** A cold start or a zero torque. *)
Definition QPInit_or_zero_torque (e : Event) : bool :=
  match e with
  | QPInit _ => true
  | JointTorqueCommand v => v == 0
  | _ => false
  end.

(** The objective qpOASES minimises, [1/2 x^T H x + x^T g], and the
    squared norm of a 6-vector. *)
Definition qp_objective (qp : QProblem) (x : 'cV[R]_dof) : R :=
  2%:R^-1 * (x^T *m qp_H qp *m x) 0 0 + (x^T *m qp_g qp) 0 0.

Definition sqnorm (v : 'cV[R]_6) : R := (v^T *m v) 0 0.

End Component.

Arguments OpStop {R K dof}.
Arguments OpStart {R K dof}.
Arguments OpConfigure {R K dof}.

End CartOptCtrl.

(** * Test doubles

    Concrete collaborators over the rationals, for running the components on
    explicit inputs. *)

Module Doubles.

(** Rotations about the z axis, given by their angle; for two of them less
    than a half turn apart the rotation vector of the difference is the
    angle difference along z. *)
Definition planar : kdlRotation rat :=
  @KdlRotation rat rat 0 (fun a b => mkVector 0 0 (b - a)).

(** A pose on the x axis turned by [theta] about z. *)
Definition pose (x theta : rat) : Frame planar :=
  @mkFrame rat planar theta (mkVector x 0 0).

(** Poses are their own messages, every transform is the identity, every
    rounded path is feasible, and the period is 10 ms. *)
Definition traj_deps : TrajCompute.Deps planar :=
  @TrajCompute.mkDeps rat planar (Frame planar) unit (Frame_Identity planar)
    id (fun h pose => Some (h, pose)) id
    (fun _ _ _ => true) (fun _ _ _ => 1) (fun _ _ _ _ => 1)
    (fun _ _ => Frame_Identity planar) (fun _ _ => Twist_Zero)
    (fun _ _ => Twist_Zero) (100%:R^-1).

(** A generator with the default parameters of the constructor. *)
Definition traj_component (poses : seq (Frame planar)) (t : rat) (computed : bool) :
  TrajCompute.KDLTrajCompute traj_deps :=
  @TrajCompute.mkKDLTrajCompute rat planar traj_deps
    (10%:R^-1) 2%:R (100%:R^-1) (20%:R^-1) tt poses [::] t computed false.

(** A seven joint arm whose model returns zeros and remembers nothing, and a
    solver that counts its calls, succeeds on even counts and fails on odd
    ones. *)
Definition ctrl_deps : CartOptCtrl.Deps planar 7 :=
  @CartOptCtrl.mkDeps rat planar 7 unit unit
    (fun a => (true, a)) (fun _ => tt) (fun a _ _ => a) id
    (fun _ _ => Frame_Identity planar) (fun _ _ => Twist_Zero)
    (fun _ _ => 0) (fun _ => 0) (fun _ => 0) (fun _ => 0)
    (fun _ _ => Twist_Zero) id
    nat 0%N
    (fun n _ => (if odd n then CartOptCtrl.RET_INIT_FAILED
                 else CartOptCtrl.SUCCESSFUL_RETURN, n.+1))
    (fun n _ => (if odd n then CartOptCtrl.RET_MAX_NWSR_REACHED
                 else CartOptCtrl.SUCCESSFUL_RETURN, n.+1))
    (fun _ => 0).

Definition point0 : CartOptCtrl.FrameAcc planar :=
  CartOptCtrl.mkFrameAcc (Frame_Identity planar) Twist_Zero Twist_Zero.

(** A controller whose solver has been called [calls] times. *)
Definition ctrl_component (calls : nat) (initialized first : bool) :
  CartOptCtrl.CartOptCtrl ctrl_deps :=
  @CartOptCtrl.mkCartOptCtrl rat planar 7 ctrl_deps tt tt 0 0 calls initialized
    first 0 0 0 point0 (Frame_Identity planar) (pose 1 0) Twist_Zero
    Twist_Zero Twist_Zero Twist_Zero Twist_Zero Twist_Zero.

(** Fresh joint feedback and nothing on the trajectory port. *)
Definition feedback_only : CartOptCtrl.Inputs planar 7 :=
  CartOptCtrl.mkInputs (ReadNewData 0) (ReadNewData 0) ReadNoData.

(** No joint velocity this period. *)
Definition no_velocity : CartOptCtrl.Inputs planar 7 :=
  CartOptCtrl.mkInputs (ReadNewData 0) ReadNoData (ReadNewData point0).

(** Headers are flags, [true] for the base frame.  [shift_into_base] moves
    a pose of another frame one unit along x and leaves a pose of the base
    frame alone; [no_transform] always raises. *)
Definition shift_into_base (h : bool) (p : Frame planar) :
  option (bool * Frame planar) :=
  Some (true,
        if h then p
        else @mkFrame rat planar (Frame_M p)
               (Vector_add (Frame_p p) (mkVector 1 0 0))).

Definition no_transform (h : bool) (p : Frame planar) :
  option (bool * Frame planar) := None.

(** As [traj_deps], with the transform and the answer of the rounded path
    to choose. *)
Definition traj_deps_of
  (transform : bool -> Frame planar -> option (bool * Frame planar))
  (feasible : bool) : TrajCompute.Deps planar :=
  @TrajCompute.mkDeps rat planar (Frame planar) bool (Frame_Identity planar)
    id transform (fun _ => true)
    (fun _ _ _ => feasible) (fun _ _ _ => 1) (fun _ _ _ _ => 1)
    (fun _ _ => Frame_Identity planar) (fun _ _ => Twist_Zero)
    (fun _ _ => Twist_Zero) (100%:R^-1).

(** A trajectory that is the half second hold alone. *)
Definition hold_only : Trajectory_Composite planar :=
  [:: Trajectory_Stationary 2%:R^-1 (pose 0 0)].

(** A generator over [traj_deps_of], with its trajectory, elapsed time and
    flag given. *)
Definition traj_component_of
  (transform : bool -> Frame planar -> option (bool * Frame planar))
  (feasible : bool) (poses : seq (Frame planar))
  (ctraject : Trajectory_Composite planar) (t : rat) (computed : bool) :
  TrajCompute.KDLTrajCompute (traj_deps_of transform feasible) :=
  @TrajCompute.mkKDLTrajCompute rat planar (traj_deps_of transform feasible)
    (10%:R^-1) 2%:R (100%:R^-1) (20%:R^-1) true poses ctraject t computed false.

(** As [ctrl_deps], with a solver whose cold start always fails. *)
Definition ctrl_deps_failing : CartOptCtrl.Deps planar 7 :=
  @CartOptCtrl.mkDeps rat planar 7 unit unit
    (fun a => (true, a)) (fun _ => tt) (fun a _ _ => a) id
    (fun _ _ => Frame_Identity planar) (fun _ _ => Twist_Zero)
    (fun _ _ => 0) (fun _ => 0) (fun _ => 0) (fun _ => 0)
    (fun _ _ => Twist_Zero) id
    nat 0%N
    (fun n _ => (CartOptCtrl.RET_INIT_FAILED, n.+1))
    (fun n _ => (CartOptCtrl.SUCCESSFUL_RETURN, n.+1))
    (fun _ => 0).

Definition ctrl_component_failing : CartOptCtrl.CartOptCtrl ctrl_deps_failing :=
  @CartOptCtrl.mkCartOptCtrl rat planar 7 ctrl_deps_failing tt tt 0 0 0%N false
    false 0 0 0 point0 (Frame_Identity planar) (pose 1 0) Twist_Zero
    Twist_Zero Twist_Zero Twist_Zero Twist_Zero Twist_Zero.

End Doubles.

(** * Properties of the trajectory generator *)

Section TrajComputeFacts.

Import TrajCompute.

Variable R : realFieldType.
Variable K : kdlRotation R.
Variable D : Deps K.

Implicit Types (c : KDLTrajCompute D) (st : loop_state K).
Implicit Types (x : Pose D) (s pre suf : seq (Pose D)).
Implicit Types (e evs : seq (Event K)).

(** *** Facts about the waypoint loop *)

Lemma waypoint_loop_cat i st s1 s2 :
  waypoint_loop i st (s1 ++ s2)
  = waypoint_loop (i + size s1) (waypoint_loop i st s1) s2.
Proof.
elim: s1 i st => [|x s1 IH] i st /=; first by rewrite addn0.
by rewrite IH addSnnS.
Qed.

Lemma waypoint_loop_rcons i st s x :
  waypoint_loop i st (rcons s x)
  = loop_body (i + size s) (waypoint_loop i st s) x.
Proof. by rewrite -cats1 waypoint_loop_cat. Qed.

Lemma loop_body_previous i st x :
  previous_is_last st -> previous_is_last (loop_body i st x).
Proof.
rewrite /previous_is_last /loop_body => H.
by case: ifP => _ //=; rewrite last_rcons.
Qed.

Lemma waypoint_loop_previous i st s :
  previous_is_last st -> previous_is_last (waypoint_loop i st s).
Proof.
elim: s i st => [|x s IH] i st H //=.
exact/IH/loop_body_previous.
Qed.

(** Indices below the current one are settled. *)
Lemma skipped_loop_body j i st x :
  (j < i)%N -> (j \in skipped (loop_body i st x)) = (j \in skipped st).
Proof.
move=> lt_ji; rewrite /loop_body; case: ifP => _ //=.
by rewrite mem_rcons inE (ltn_eqF lt_ji).
Qed.

Lemma skipped_waypoint_loop j i st s :
  (j < i)%N ->
  (j \in skipped (waypoint_loop i st s)) = (j \in skipped st).
Proof.
elim: s i st => [|x s IH] i st lt_ji //=.
by rewrite IH ?skipped_loop_body // ltnS ltnW.
Qed.

Lemma skipped_bound i st s :
  all (fun j => j < i)%N (skipped st) ->
  all (fun j => j < i + size s)%N (skipped (waypoint_loop i st s)).
Proof.
elim: s i st => [|x s IH] i st H /=; first by rewrite addn0.
rewrite addnS -addSn; apply: IH.
have H' : all (fun j => j < i.+1)%N (skipped st).
  by apply: sub_all H => j /ltnW.
by rewrite /loop_body; case: ifP => _ //=; rewrite all_rcons ltnSn.
Qed.

(** *** Facts about the periodic tick *)

Lemma updateHook_idle c : ~~ traj_computed_ c -> updateHook c = (c, [::]).
Proof. by rewrite /updateHook => /negbTE ->. Qed.

Lemma ticks_idle n c : ~~ traj_computed_ c -> ticks n c = (c, [::]).
Proof.
elim: n => [|n IH] //= idle.
by rewrite updateHook_idle // IH.
Qed.

Lemma sample_times_cat e1 e2 :
  sample_times (e1 ++ e2) = sample_times e1 ++ sample_times e2.
Proof. by rewrite /sample_times map_cat flatten_cat. Qed.

(** No sample of a run of ticks is older than the cursor the run starts
    from, and the samples come out in order. *)
Lemma ticks_samples n c :
  0 <= getPeriod D ->
  all (fun t => current_traj_time_ c <= t) (sample_times (ticks n c).2)
  /\ sorted <=%O (sample_times (ticks n c).2).
Proof.
move=> period_ge0; elim: n c => [|n IH] c //=.
case computed: (traj_computed_ c); last first.
  by rewrite updateHook_idle ?computed // ticks_idle ?computed.
rewrite /updateHook computed.
case: ifP => running.
  set c1 := mkKDLTrajCompute _ _ _ _ _ _ _ _ _ _.
  case: (IH c1); case: (ticks n c1) => c2 e2 /= all_e2 sorted_e2.
  have later : all (fun t => current_traj_time_ c <= t) (sample_times e2).
    apply: sub_all all_e2 => t; apply: le_trans.
    by rewrite lerDl.
  rewrite /sample_times /= -/(sample_times e2) lexx later; split=> //.
  by rewrite path_sortedE ?later //; apply: le_trans.
by rewrite ticks_idle.
Qed.


(** *** Waypoint filtering *)

(** After the loop [frame] is the last pose of the request, kept or not. *)
Lemma frame_waypoint_loop i st s x :
  frame (waypoint_loop i st (rcons s x)) = poseMsgToKDL x.
Proof. by rewrite waypoint_loop_rcons /loop_body; case: ifP. Qed.

(** C2, as the code has it: a waypoint is dropped exactly when it is not the
    first one and the three translational components of its difference to
    the waypoint kept last are each below 0.01 in absolute value; the
    rotational components are not looked at.  A dropped waypoint leaves the
    list of kept waypoints as it was, any other is appended to it. *)
Theorem waypoint_dropped_iff pre x suf :
  let st := waypoint_loop 0 (loop_init K) pre in
  let err :=
    diff_Frame (poseMsgToKDL x) (last (Frame_Identity K) (waypoints st)) in
  let dropped :=
    (0 < size pre)%N &&
    [&& `|vx (vel err)| < tolerance R, `|vy (vel err)| < tolerance R
      & `|vz (vel err)| < tolerance R] in
  (size pre \in skipped (waypoint_loop 0 (loop_init K) (pre ++ x :: suf)))
  = dropped
  /\ waypoints (waypoint_loop 0 (loop_init K) (rcons pre x))
     = if dropped then waypoints st else rcons (waypoints st) (poseMsgToKDL x).
Proof.
move=> st err dropped.
have prev : previous_frame st = last (Frame_Identity K) (waypoints st).
  exact: (@waypoint_loop_previous 0 (loop_init K) pre).
have fresh : size pre \notin skipped st.
  have := @skipped_bound 0 (loop_init K) pre isT.
  rewrite add0n -/st => /allP bound.
  by apply/negP => /bound; rewrite ltnn.
have body : loop_body (size pre) st x
            = if dropped
              then mkLoop (poseMsgToKDL x) (previous_frame st) (waypoints st)
                     (rcons (skipped st) (size pre))
              else mkLoop (poseMsgToKDL x) (poseMsgToKDL x)
                     (rcons (waypoints st) (poseMsgToKDL x)) (skipped st).
  by rewrite /loop_body prev.
split; last first.
  rewrite waypoint_loop_rcons add0n -/st body.
  by move: dropped {body} => [].
rewrite -cat_rcons waypoint_loop_cat skipped_waypoint_loop;
  first by rewrite add0n size_rcons.
rewrite waypoint_loop_rcons add0n -/st body.
move: fresh; move: dropped {body} => [] fresh /=.
  by rewrite mem_rcons inE eqxx.
by rewrite (negbTE fresh).
Qed.

(** *** Trajectory construction *)

(** X6: with two or more waypoints kept and a feasible rounded path, the
    trajectory is the profiled path followed by the hold, and lasts the time
    of the profile over the path length plus half a second. *)
Lemma computeTrajectory_rounded c :
  let st := waypoint_loop 0 (loop_init K) (waypoints_in_poses c) in
  let path := Path_RoundedComposite (radius_ c) (eqradius_ c) (waypoints st) in
  let motion :=
    Trap_Duration D (vel_max_ c) (acc_max_ c) 0 (PathLength D path) in
  (1 < size (waypoints st))%N ->
  RoundedComposite_ok D (radius_ c) (eqradius_ c) (waypoints st) ->
  [/\ (computeTrajectory c).1.1 = true,
      (computeTrajectory c).1.2
      = [:: Trajectory_Segment path
              (mkTrap (vel_max_ c) (acc_max_ c) (Some (0, PathLength D path)));
            Trajectory_Stationary 2%:R^-1 (frame st)],
      Duration D (computeTrajectory c).1.2 = motion + 2%:R^-1
    & 0 <= motion -> 0 < Duration D (computeTrajectory c).1.2].
Proof.
move=> st path motion two ok.
have -> : computeTrajectory c
          = (true,
             [:: Trajectory_Segment path
                   (mkTrap (vel_max_ c) (acc_max_ c)
                      (Some (0, PathLength D path)));
                 Trajectory_Stationary 2%:R^-1 (frame st)],
             rcons [seq SkippingPoint K i | i <- skipped st]
               (PublishTrajectory
                  [:: Trajectory_Segment path
                        (mkTrap (vel_max_ c) (acc_max_ c)
                           (Some (0, PathLength D path)));
                      Trajectory_Stationary 2%:R^-1 (frame st)])).
  by rewrite /computeTrajectory -/st two ok.
have dur : Duration D
             [:: Trajectory_Segment path
                   (mkTrap (vel_max_ c) (acc_max_ c)
                      (Some (0, PathLength D path)));
                 Trajectory_Stationary 2%:R^-1 (frame st)]
           = motion + 2%:R^-1.
  by rewrite /Duration !big_cons big_nil addr0.
split=> //= motion_ge0; rewrite dur.
by rewrite ltr_wpDl // invr_gt0 ltr0n.
Qed.

(** *** The periodic tick and activation *)

(** C9: with a non-negative period, a tick taken while the trajectory is
    executing (marked as computed, elapsed time below the duration) emits
    exactly one point, sampled at the elapsed time, and moves the elapsed
    time forward by exactly one period, never backwards; over any run of
    ticks the points come out in non-decreasing order of sampling time; and
    every request that reaches trajectory construction leaves the elapsed
    time at 0, with the trajectory marked as computed exactly when the
    construction succeeded. *)
Theorem elapsed_time_cursor c :
  0 <= getPeriod D ->
  [/\ traj_computed_ c -> current_traj_time_ c < Duration D (ctraject_ c) ->
        let t := current_traj_time_ c in
        [/\ (updateHook c).2
            = [:: TrajectoryPoint t (Trajectory_Pos D (ctraject_ c) t)
                    (Trajectory_Vel D (ctraject_ c) t)
                    (Trajectory_Acc D (ctraject_ c) t)],
            current_traj_time_ (updateHook c).1 = t + getPeriod D,
            t <= current_traj_time_ (updateHook c).1
          & traj_computed_ (updateHook c).1],
      forall n, sorted <=%O (sample_times (ticks n c).2)
    & forall req c' success evs,
        updateWaypoints c req = (c', Some success, evs) ->
        current_traj_time_ c' = 0 /\ traj_computed_ c' = success].
Proof.
move=> period_ge0; split.
- by move=> computed running; rewrite /updateHook computed running /= lerDl.
- by move=> n; case: (ticks_samples n c period_ge0).
move=> req c' success evs; rewrite /updateWaypoints.
case: (transform_loop _ _) => out [] //=.
by case: (computeTrajectory _) => [[success' ctraject] evs'] [<- <- _].
Qed.

(** C10: a request with no waypoint is not rejected.  The waypoint loop
    keeps nothing, the branch for fewer than two waypoints builds a
    stationary path at the default frame, the half second hold follows at
    the same frame, success is reported, and the trajectory is left
    executing from elapsed time 0. *)
Theorem empty_request_accepted c (h : Header D) :
  let res := updateWaypoints c (mkRequest h [::]) in
  let c' := res.1.1 in
  [/\ res.1.2 = Some true,
      traj_computed_ c',
      current_traj_time_ c' = 0,
      ctraject_ c'
      = [:: Trajectory_Segment (Path_Point (Frame_Identity K))
              (mkTrap (vel_max_ c) (acc_max_ c) None);
            Trajectory_Stationary 2%:R^-1 (Frame_Identity K)]
    & current_traj_time_ c' < Duration D (ctraject_ c')].
Proof.
split=> //=.
by rewrite /Duration !big_cons big_nil /= addr0 add0r invr_gt0 ltr0n.
Qed.

End TrajComputeFacts.

(** * The trajectory generator on explicit requests *)

Section TrajComputeRuns.

Import TrajCompute Doubles.

(** C2, the claim as it is stated, fails in both directions.  A waypoint
    that only turns on the spot (one radian about z) is dropped although one
    rotational component of its difference to its predecessor is far above
    the tolerance; and of three waypoints 6.25 mm apart the third is kept,
    although it is within tolerance of its immediate predecessor on all six
    axes, because it is compared with the first one, the waypoint kept
    last. *)
Lemma dropped_iff_all_six_axes_fails :
  let turned := [:: pose 0 0; pose 0 1] in
  let creeping := [:: pose 0 0; pose (160%:R^-1) 0; pose (80%:R^-1) 0] in
  [/\ 1%N \in skipped (@waypoint_loop _ _ traj_deps 0 (loop_init planar) turned),
      within_tolerance_on_all_axes (diff_Frame (pose 0 1) (pose 0 0)) = false,
      2%N \notin
        skipped (@waypoint_loop _ _ traj_deps 0 (loop_init planar) creeping)
    & within_tolerance_on_all_axes
        (diff_Frame (pose (80%:R^-1) 0) (pose (160%:R^-1) 0)) = true].
Proof. by []. Qed.

(** C6 on a request whose last waypoint is dropped: three waypoints on the
    x axis at 0, 1 and 1.005.  The third is skipped, the rounded path runs
    through the first two and ends at x = 1, and the hold segment is put at
    the skipped waypoint, x = 1.005, off the end of the path. *)
Lemma hold_pose_off_path_end :
  let last_pose := pose (1 + 200%:R^-1) 0 in
  let c := traj_component [:: pose 0 0; pose 1 0; last_pose] 0 false in
  let path :=
    Path_RoundedComposite (radius_ c) (eqradius_ c) [:: pose 0 0; pose 1 0] in
  [/\ (computeTrajectory c).1
      = (true,
         [:: Trajectory_Segment path
               (mkTrap (vel_max_ c) (acc_max_ c) (Some (0, PathLength traj_deps path)));
             Trajectory_Stationary 2%:R^-1 last_pose]),
      [seq e <- (computeTrajectory c).2 | if e is SkippingPoint _ then true else false]
      = [:: SkippingPoint planar 2]
    & vx (Frame_p last_pose) != vx (Frame_p (pose 1 0))].
Proof. by []. Qed.

(** C7 on a request of two waypoints 5 mm apart.  The second is skipped and
    the first is the one waypoint that remains, yet the stationary path and
    the hold are put at the second. *)
Lemma stationary_path_off_remaining_waypoint :
  let second := pose (200%:R^-1) 0 in
  let c := traj_component [:: pose 0 0; second] 0 false in
  [/\ waypoints (@waypoint_loop _ _ traj_deps 0 (loop_init planar)
                   (waypoints_in_poses c))
      = [:: pose 0 0],
      (computeTrajectory c).1
      = (true,
         [:: Trajectory_Segment (Path_Point second)
               (mkTrap (vel_max_ c) (acc_max_ c) None);
             Trajectory_Stationary 2%:R^-1 second])
    & vx (Frame_p second) != vx (Frame_p (pose 0 0))].
Proof. by []. Qed.

(** [elapsed_time_cursor] on the generator right after a request with one
    waypoint: the trajectory lasts half a second, the elapsed time is 0. *)
Lemma elapsed_time_cursor_witness :
  let c :=
    (updateWaypoints (traj_component [::] 0 false)
       (@mkRequest _ _ traj_deps tt [:: pose 0 0])).1.1 in
  [/\ 0 <= getPeriod traj_deps,
      traj_computed_ c,
      current_traj_time_ c < Duration traj_deps (ctraject_ c),
      current_traj_time_ (updateHook c).1
      = current_traj_time_ c + getPeriod traj_deps
    & forall n, sorted <=%O (sample_times (ticks n c).2)].
Proof.
move=> c.
have period_ge0 : 0 <= getPeriod traj_deps by rewrite /= invr_ge0 ler0n.
have computed : traj_computed_ c by [].
have running : current_traj_time_ c < Duration traj_deps (ctraject_ c).
  by rewrite /Duration !big_cons big_nil.
case: (elapsed_time_cursor c period_ge0) => tick run _.
case: (tick computed running) => _ step _ _.
split; [exact: period_ge0 | exact: computed | exact: running | exact: step | exact: run].
Defined.

End TrajComputeRuns.

(** * Properties of the controller *)

Section CartOptCtrlFacts.

Import CartOptCtrl.

Variable R : realFieldType.
Variable K : kdlRotation R.
Variable dof : nat.
Variable D : Deps K dof.

Implicit Types (c : CartOptCtrl D) (inp : Inputs K dof).

Lemma has_feedbackE inp :
  has_feedback inp
  = ~~ (is_NoData (read_status (port_joint_position_in inp))
        || is_NoData (read_status (port_joint_velocity_in inp))).
Proof. by rewrite negb_or. Qed.

(** [updateHook] in a period with joint feedback, in terms of the named
    intermediate values. *)
Lemma updateHook_feedback c inp :
  has_feedback inp ->
  let c' := (updateHook c inp).1 in
  let torque :=
    torque_command (period_ret c inp) (period_solver c inp)
      (refreshed_arm c inp) in
  [/\ (updateHook c inp).2
      = (if qpoases_initialized c then [:: QPHotstart (period_qp c inp)]
         else [:: QPInit (period_qp c inp)])
        ++ [:: JointTorqueCommand torque],
      joint_torque_out c' = torque,
      arm c' = refreshed_arm c inp,
      Xdd_des c' = period_Xdd_des c inp
    & qpoases_initialized c'
      = qpoases_initialized c || is_SUCCESSFUL_RETURN (period_ret c inp)].
Proof.
rewrite has_feedbackE /updateHook => /negbTE ->.
rewrite /period_ret /period_solver /period_qp /period_Xdd_des /refreshed_arm.
case: (desired _ _ _) => [[[[pt X_traj1] Xd_traj1] Xdd_traj1] has_first1].
rewrite /solve; case: (qpoases_initialized c) => /=.
  by case: (SQProblem_hotstart _ _) => ret solver1.
by case: (SQProblem_init _ _) => ret solver1.
Qed.

(** [updateHook] in a period without joint feedback. *)
Lemma updateHook_no_feedback c inp :
  ~~ has_feedback inp ->
  updateHook c inp
  = (mkCartOptCtrl (arm c) (ee_frame c) (P_gain c) (D_gain c)
       (qpoases_solver c) (qpoases_initialized c) (has_first_command c)
       (read_sample (port_joint_position_in inp) (joint_position_in c))
       (read_sample (port_joint_velocity_in inp) (joint_velocity_in c))
       (joint_torque_out c) (traj_pt_in c) (X_curr c) (X_traj c) (Xd_curr c)
       (Xd_traj c) (Xdd_traj c) (X_err c) (Xd_err c) (Xdd_des c),
     [::]).
Proof. by rewrite has_feedbackE negbK /updateHook => ->. Qed.

(** *** Torque output *)

(** C1: in a period with joint feedback exactly one torque vector is
    written to the command port.  It is the primal solution of the solver
    less the gravity torque of the refreshed model when the solver call of
    the period returned [SUCCESSFUL_RETURN], and the zero vector for any
    other return value, whatever [joint_torque_out] held before. *)
Theorem torque_written_every_period c inp :
  has_feedback inp ->
  [seq e <- (updateHook c inp).2 | is_JointTorqueCommand e]
  = [:: JointTorqueCommand
          (if is_SUCCESSFUL_RETURN (period_ret c inp)
           then getPrimalSolution (period_solver c inp)
                - getGravityTorque (refreshed_arm c inp)
           else 0)].
Proof.
move=> feedback; case: (updateHook_feedback c feedback) => -> _ _ _ _.
by rewrite filter_cat /torque_command; case: (qpoases_initialized c).
Qed.

(** C5: in a period in which the position or the velocity read returns
    [NoData] nothing is sent out, neither a torque nor a solver call, and
    the model, the solver, the warm start flag, the torque variable and
    [has_first_command] are left as they were. *)
Theorem no_feedback_no_output c inp :
  is_NoData (read_status (port_joint_position_in inp))
  || is_NoData (read_status (port_joint_velocity_in inp)) ->
  let c' := (updateHook c inp).1 in
  [/\ (updateHook c inp).2 = [::],
      arm c' = arm c,
      qpoases_solver c' = qpoases_solver c,
      joint_torque_out c' = joint_torque_out c
    & qpoases_initialized c' = qpoases_initialized c
      /\ has_first_command c' = has_first_command c].
Proof.
move=> no_data; rewrite updateHook_no_feedback //.
by rewrite has_feedbackE negbK.
Qed.

(** *** The quadratic program *)

Lemma gram_quadratic_form (a : 'M[R]_(6, dof)) (x : 'cV[R]_dof) :
  (x^T *m (2%:R *: a^T *m a) *m x) 0 0
  = 2%:R * \sum_k (a *m x) k 0 * (a *m x) k 0.
Proof.
rewrite -scalemxAl -scalemxAr -scalemxAl mxE; congr (_ * _).
rewrite mulmxA -trmx_mul -mulmxA mxE.
by apply: eq_bigr => k _; rewrite mxE.
Qed.

(** C3: in a period with joint feedback the solver is called once, cold or
    hot, with [H = 2 a^T a] and [g = 2 a^T b], where [a = J Minv] and
    [b = - a (coriolis + gravity) + Jdot_qdot - xdd_des] are taken from the
    refreshed model and the desired acceleration of the period; [H] is
    symmetric and positive semi-definite; the bounds are [-torque_max] and
    [torque_max]; the constraint matrix and its bounds are null. *)
Theorem qp_form c inp :
  has_feedback inp ->
  let arm1 := refreshed_arm c inp in
  let c' := (updateHook c inp).1 in
  let a := getSegmentJacobian arm1 (ee_frame c) *m getInertiaInverseMatrix arm1 in
  let b := - (a *m (getCoriolisTorque arm1 + getGravityTorque arm1))
           + twistKDLToEigen (getSegmentJdotQdot arm1 (ee_frame c))
           - twistKDLToEigen (Xdd_des c') in
  let qp := period_qp c inp in
  [/\ [seq e <- (updateHook c inp).2 | is_solve e]
      = [:: if qpoases_initialized c then QPHotstart qp else QPInit qp],
      qp_H qp = 2%:R *: (a^T *m a) /\ qp_g qp = 2%:R *: (a^T *m b),
      (qp_H qp)^T = qp_H qp
      /\ (forall x : 'cV[R]_dof, 0 <= (x^T *m qp_H qp *m x) 0 0),
      qp_lb qp = Some (- torque_max R dof) /\ qp_ub qp = Some (torque_max R dof)
    & [/\ qp_A qp = None, qp_lbA qp = None & qp_ubA qp = None]].
Proof.
move=> feedback arm1 c' a b qp.
case: (updateHook_feedback c feedback) => -> _ _ Xdd _.
split=> //.
- by rewrite filter_cat; case: (qpoases_initialized c).
- split; first by rewrite /= -scalemxAl.
  by rewrite /b Xdd /= /qp_b -/arm1 -scalemxAl mulNmx.
- split; first by rewrite /= -scalemxAl linearZ /= trmx_mul trmxK.
  move=> x; rewrite gram_quadratic_form mulr_ge0 ?ler0n //.
  by apply: sumr_ge0 => k _; rewrite -expr2 sqr_ge0.
Qed.

(** *** The first period *)

Lemma run_no_feedback c (skips : seq (Inputs K dof)) :
  all (fun inp => ~~ has_feedback inp) skips ->
  [/\ has_first_command (run c skips) = has_first_command c,
      arm (run c skips) = arm c & ee_frame (run c skips) = ee_frame c].
Proof.
elim: skips c => [|inp skips IH] c //= /andP [skip rest].
by case: (IH (updateHook c inp).1 rest) => -> -> ->;
   rewrite updateHook_no_feedback.
Qed.

(** C4: take a controller that has just been started and has since seen
    only periods without joint feedback.  In the first period with joint
    feedback, if the trajectory port has no data, the desired pose is the
    pose measured in that period, the desired velocity and acceleration are
    zero, and, the difference of a rotation to itself being the zero vector,
    the pose error is the zero twist. *)
Theorem first_period_holds_current_pose c0 (skips : seq (Inputs K dof)) inp :
  (forall M : Rotation K, diff_Rotation M M = Vector_Zero) ->
  all (fun inp => ~~ has_feedback inp) skips ->
  has_feedback inp ->
  read_status (port_traj_in inp) = NoData ->
  let c := run (startHook c0).2 skips in
  let c' := (updateHook c inp).1 in
  [/\ X_curr c' = getSegmentPosition (refreshed_arm c inp) (ee_frame c),
      X_traj c' = X_curr c',
      Xd_traj c' = Twist_Zero,
      Xdd_traj c' = Twist_Zero
    & X_err c' = Twist_Zero].
Proof.
move=> diff_refl no_feedback feedback no_point c.
have [first _ _] := run_no_feedback (startHook c0).2 no_feedback.
move: feedback; rewrite has_feedbackE /updateHook => /negbTE ->.
rewrite /desired no_point -/c first /=.
case: (solve _ _ _) => [[[ret solver1] initialized1] calls] /=.
split=> //.
by rewrite /diff_Frame /diff_Vector /Vector_sub diff_refl !subrr.
Qed.

(** *** The warm start flag *)

Lemma apply_op_initialized c op :
  qpoases_initialized c -> qpoases_initialized (apply_op c op).
Proof.
case: op => [inp|||] //= initialized.
- case feedback: (has_feedback inp).
    by case: (updateHook_feedback c feedback) => _ _ _ _ ->; rewrite initialized.
  by rewrite updateHook_no_feedback ?feedback.
- by rewrite /configureHook; case: (arm_init _) => [[] arm1].
Qed.

(** C8, as the code has it: once the flag is set it stays set over any
    sequence of periods, with or without feedback and whatever the solver
    returns, and of stop, start and configure hooks; in every period with
    joint feedback after that the one solver call is a hot start.  The flag
    gets set by a cold start that returns [SUCCESSFUL_RETURN], and by
    nothing else. *)
Theorem warm_start_flag_never_cleared c (ops : seq (Op K dof)) :
  qpoases_initialized c ->
  [/\ qpoases_initialized (apply_ops c ops),
      forall inp, has_feedback inp ->
        [seq e <- (updateHook (apply_ops c ops) inp).2 | is_solve e]
        = [:: QPHotstart (period_qp (apply_ops c ops) inp)]
    & forall c1 inp, ~~ qpoases_initialized c1 ->
        qpoases_initialized (updateHook c1 inp).1
        = has_feedback inp
          && is_SUCCESSFUL_RETURN
               (SQProblem_init (qpoases_solver c1) (period_qp c1 inp)).1].
Proof.
move=> initialized.
have kept : qpoases_initialized (apply_ops c ops).
  elim: ops c initialized => [|op ops IH] c initialized //=.
  exact/IH/apply_op_initialized.
split=> // [inp feedback|c1 inp /negbTE cold].
  case: (updateHook_feedback (apply_ops c ops) feedback) => -> _ _ _ _.
  by rewrite kept filter_cat.
case feedback: (has_feedback inp); last first.
  by rewrite updateHook_no_feedback ?feedback.
case: (updateHook_feedback c1 feedback) => _ _ _ _ ->.
rewrite cold /= /period_ret /solve cold /=.
by case: (SQProblem_init _ _).
Qed.

End CartOptCtrlFacts.

(** * The controller on explicit inputs *)

Section CartOptCtrlRuns.

Import CartOptCtrl Doubles.

Lemma planar_diff_refl (M : Rotation planar) : diff_Rotation M M = Vector_Zero.
Proof. by rewrite /= subrr. Qed.

(** [torque_written_every_period] on a cold start that succeeds, where the
    solution less gravity is written, and on a hot start that fails, where
    the zero vector is written. *)
Lemma torque_written_every_period_witness :
  let cold := ctrl_component 0 false false in
  let failing := ctrl_component 1 true true in
  [/\ has_feedback feedback_only,
      [seq e <- (updateHook cold feedback_only).2 | is_JointTorqueCommand e]
      = [:: JointTorqueCommand
              (getPrimalSolution (period_solver cold feedback_only)
               - getGravityTorque (refreshed_arm cold feedback_only))]
    & [seq e <- (updateHook failing feedback_only).2 | is_JointTorqueCommand e]
      = [:: JointTorqueCommand 0]].
Proof.
move=> cold failing.
have feedback : has_feedback feedback_only by [].
split; first exact: feedback.
  exact: (torque_written_every_period cold feedback).
exact: (torque_written_every_period failing feedback).
Defined.

(** [no_feedback_no_output] on a period without joint velocity. *)
Lemma no_feedback_no_output_witness :
  let c := ctrl_component 0 false false in
  is_NoData (read_status (port_joint_position_in no_velocity))
  || is_NoData (read_status (port_joint_velocity_in no_velocity))
  /\ (updateHook c no_velocity).2 = [::].
Proof.
move=> c; split; first by [].
by case: (@no_feedback_no_output _ _ _ _ c no_velocity isT).
Defined.

(** [qp_form] on a cold start. *)
Lemma qp_form_witness :
  let c := ctrl_component 0 false false in
  let qp := period_qp c feedback_only in
  [/\ has_feedback feedback_only,
      [seq e <- (updateHook c feedback_only).2 | is_solve e] = [:: QPInit qp],
      (qp_H qp)^T = qp_H qp
    & forall x : 'cV[rat]_7, 0 <= (x^T *m qp_H qp *m x) 0 0].
Proof.
move=> c qp.
have feedback : has_feedback feedback_only by [].
case: (qp_form c feedback) => solves _ [symmetric psd] _ _.
by split.
Defined.

(** [first_period_holds_current_pose] on a controller started with an old
    desired pose, after one period without velocity feedback. *)
Lemma first_period_holds_current_pose_witness :
  let c0 := ctrl_component 0 false true in
  let c := run (startHook c0).2 [:: no_velocity] in
  let c' := (updateHook c feedback_only).1 in
  [/\ forall M : Rotation planar, diff_Rotation M M = Vector_Zero,
      all (fun inp => ~~ has_feedback inp) [:: no_velocity],
      has_feedback feedback_only,
      read_status (port_traj_in feedback_only) = NoData
    & X_traj c' = X_curr c' /\ X_err c' = Twist_Zero].
Proof.
move=> c0 c c'.
have no_feedback : all (fun inp => ~~ has_feedback inp) [:: no_velocity] by [].
have feedback : has_feedback feedback_only by [].
have no_point : read_status (port_traj_in feedback_only) = NoData by [].
case: (first_period_holds_current_pose c0 planar_diff_refl no_feedback
         feedback no_point) => _ held _ _ no_error.
split; [exact: planar_diff_refl | exact: no_feedback | exact: feedback
       | exact: no_point | by split].
Defined.

(** C8, the claim as it is stated, fails on its last part: stopping and
    starting the controller does not clear the flag.  After a cold start
    that succeeds the flag is set; it is still set after [stopHook] and
    [startHook], and the next period calls [hotstart], not [init]. *)
Lemma restart_keeps_warm_start_flag :
  let c0 := ctrl_component 0 false false in
  let c1 := (updateHook c0 feedback_only).1 in
  let c2 := (startHook (stopHook c1)).2 in
  [/\ ~~ qpoases_initialized c0,
      qpoases_initialized c1,
      qpoases_initialized c2
    & [seq e <- (updateHook c2 feedback_only).2 | is_solve e]
      = [:: QPHotstart (period_qp c2 feedback_only)]].
Proof. by []. Qed.

(** [warm_start_flag_never_cleared] on a failed hot start followed by a
    stop, a start and a configure. *)
Lemma warm_start_flag_never_cleared_witness :
  let c := ctrl_component 1 true true in
  let ops := [:: OpUpdate feedback_only; OpStop; OpStart; OpConfigure] in
  [/\ qpoases_initialized c,
      is_SUCCESSFUL_RETURN (period_ret c feedback_only) = false
    & qpoases_initialized (apply_ops c ops)].
Proof.
move=> c ops.
have initialized : qpoases_initialized c by [].
case: (warm_start_flag_never_cleared ops initialized) => kept _ _.
by split.
Defined.

End CartOptCtrlRuns.

(** * Further properties of the trajectory generator *)

Section TrajComputeMore.

Import TrajCompute.

Variable R : realFieldType.
Variable K : kdlRotation R.
Variable D : Deps K.

Implicit Types (c : KDLTrajCompute D) (st : loop_state K).
Implicit Types (x : Pose D) (s pre suf rest : seq (Pose D)).
Implicit Types (e evs : seq (Event K)).

(** *** What the waypoint loop keeps *)

Lemma waypoint_loop_sizes i st s :
  (size (waypoints (waypoint_loop i st s))
   + size (skipped (waypoint_loop i st s)))%N
  = (size (waypoints st) + size (skipped st) + size s)%N.
Proof.
elim: s i st => [|x s IH] i st /=; first by rewrite addn0.
by rewrite IH /loop_body; case: ifP => _ /=; rewrite size_rcons !(addnS, addSn).
Qed.

(** One iteration at an index that has not been reported yet. *)
Lemma loop_body_fresh i st x :
  all (fun j => j < i)%N (skipped st) ->
  let dropped :=
    (0 < i)%N && too_similar (diff_Frame (poseMsgToKDL x) (previous_frame st)) in
  (i \in skipped (loop_body i st x)) = dropped
  /\ waypoints (loop_body i st x)
     = if dropped then waypoints st else rcons (waypoints st) (poseMsgToKDL x).
Proof.
move=> /allP bound /=; rewrite /loop_body; case: ifP => _ /=.
  by rewrite mem_rcons inE eqxx.
by split=> //; apply/negP => /bound; rewrite ltnn.
Qed.

(** X3: the waypoints kept are the poses of the request at the indices that
    were not reported as skipped, in the order of the request; every pose is
    either kept or reported, and the first one is never reported. *)
Theorem kept_waypoints_are_the_unskipped_poses s :
  let st := waypoint_loop 0 (loop_init K) s in
  [/\ waypoints st
      = mask [seq i \notin skipped st | i <- iota 0 (size s)]
             [seq poseMsgToKDL x | x <- s],
      (size (waypoints st) + size (skipped st))%N = size s
    & 0%N \notin skipped st].
Proof.
move=> st; split; first last.
- rewrite /st; case: s {st} => [|x s] //=.
  by rewrite skipped_waypoint_loop.
- by rewrite /st waypoint_loop_sizes.
rewrite {}/st; elim/last_ind: s => [|s x IH] //.
have bound : all (fun j => j < size s)%N
               (skipped (waypoint_loop 0 (loop_init K) s)).
  by have := @skipped_bound _ _ D 0 (loop_init K) s isT; rewrite add0n.
rewrite waypoint_loop_rcons add0n size_rcons -addn1 iotaD add0n /=.
rewrite map_cat map_rcons -cats1 mask_cat ?size_map ?size_iota //=.
have [-> ->] := loop_body_fresh x bound.
set dropped := _ && _.
have -> : [seq i \notin skipped
                 (loop_body (size s) (waypoint_loop 0 (loop_init K) s) x)
          | i <- iota 0 (size s)]
          = [seq i \notin skipped (waypoint_loop 0 (loop_init K) s)
            | i <- iota 0 (size s)].
  apply/eq_in_map => i; rewrite mem_iota add0n /= => lt_i.
  by rewrite skipped_loop_body.
by rewrite -IH; case: dropped; rewrite /= ?cats0 ?cats1.
Qed.

(** The loop never puts two waypoints next to each other that fail the test
    of line 129. *)
Lemma waypoint_loop_apart i st s :
  previous_is_last st ->
  (i == 0%N) ==> nilp (waypoints st) ->
  sorted (@apart R K) (waypoints st) ->
  sorted (@apart R K) (waypoints (waypoint_loop i st s)).
Proof.
elim: s i st => [|x s IH] i st //= prev first ok.
apply: IH => //; first exact: loop_body_previous.
rewrite /loop_body; case: ifP => //= kept.
move: prev first ok kept; rewrite /previous_is_last.
case: (waypoints st) => [|a w] //= -> first ok.
rewrite rcons_path ok /apart /=.
by case: i first => //= i _ ->.
Qed.

(** X4: in the list of kept waypoints every waypoint differs from the one
    before it by at least 0.01 on one of the three translational axes. *)
Theorem kept_waypoints_are_apart s :
  sorted (@apart R K) (waypoints (waypoint_loop 0 (loop_init K) s)).
Proof. exact: waypoint_loop_apart. Qed.

(** *** What computeTrajectory builds *)

(** X5: for a request that is not empty, a construction that succeeds ends
    with the half second hold at the last pose of the request, whether or
    not that pose was kept; the motion segment before it is the rounded
    path through the kept waypoints when two or more were kept, and the
    point path at the last pose of the request otherwise. *)
Theorem hold_at_last_requested_pose c s x :
  waypoints_in_poses c = rcons s x ->
  (computeTrajectory c).1.1 ->
  let kept := waypoints (waypoint_loop 0 (loop_init K) (rcons s x)) in
  let path := Path_RoundedComposite (radius_ c) (eqradius_ c) kept in
  (computeTrajectory c).1.2
  = [:: if (1 < size kept)%N
        then Trajectory_Segment path
               (mkTrap (vel_max_ c) (acc_max_ c) (Some (0, PathLength D path)))
        else Trajectory_Segment (Path_Point (poseMsgToKDL x))
               (mkTrap (vel_max_ c) (acc_max_ c) None);
        Trajectory_Stationary 2%:R^-1 (poseMsgToKDL x)].
Proof.
rewrite /computeTrajectory => -> /=; rewrite frame_waypoint_loop.
by case: ifP => // _; case: ifP.
Qed.

(** The loop over poses that all fail the test against the waypoint kept
    last keeps nothing more. *)
Lemma waypoint_loop_all_similar (f0 : Frame K) i st s :
  (0 < i)%N ->
  previous_frame st = f0 ->
  all (fun x => too_similar (diff_Frame (poseMsgToKDL x) f0)) s ->
  [/\ waypoints (waypoint_loop i st s) = waypoints st,
      skipped (waypoint_loop i st s) = skipped st ++ iota i (size s)
    & frame (waypoint_loop i st s)
      = last (frame st) [seq poseMsgToKDL x | x <- s]].
Proof.
elim: s i st => [|x s IH] i st /= i_gt0 prev; first by rewrite cats0.
case/andP=> similar rest.
have step : loop_body i st x
            = mkLoop (poseMsgToKDL x) (previous_frame st) (waypoints st)
                (rcons (skipped st) i).
  by rewrite /loop_body i_gt0 prev similar.
have prev' : previous_frame (loop_body i st x) = f0 by rewrite step.
have [-> -> ->] := IH i.+1 _ isT prev' rest.
by rewrite step /= cat_rcons.
Qed.

(** X7: when every pose of a request is within the tolerance of the first
    one on the three translational axes, only the first is kept, all the
    others are reported, construction succeeds whatever the path library
    would say, and the trajectory is a point path and a hold, both at the
    last pose of the request, lasting half a second in all. *)
Theorem request_within_tolerance_is_stationary c x0 rest :
  waypoints_in_poses c = x0 :: rest ->
  all (fun x => too_similar (diff_Frame (poseMsgToKDL x) (poseMsgToKDL x0)))
      rest ->
  let st := waypoint_loop 0 (loop_init K) (x0 :: rest) in
  let final := poseMsgToKDL (last x0 rest) in
  [/\ waypoints st = [:: poseMsgToKDL x0],
      skipped st = iota 1 (size rest),
      (computeTrajectory c).1
      = (true,
         [:: Trajectory_Segment (Path_Point final)
               (mkTrap (vel_max_ c) (acc_max_ c) None);
             Trajectory_Stationary 2%:R^-1 final])
    & Duration D (computeTrajectory c).1.2 = 2%:R^-1].
Proof.
move=> poses similar st final.
have [kept reported last_frame] :
  [/\ waypoints st = [:: poseMsgToKDL x0], skipped st = iota 1 (size rest)
    & frame st = final].
  have [] // := @waypoint_loop_all_similar (poseMsgToKDL x0) 1
                  (loop_body 0 (loop_init K) x0) rest.
  by rewrite /st /= => -> -> ->; rewrite /final last_map.
have built : (computeTrajectory c).1
             = (true,
                [:: Trajectory_Segment (Path_Point final)
                      (mkTrap (vel_max_ c) (acc_max_ c) None);
                    Trajectory_Stationary 2%:R^-1 final]).
  by rewrite /computeTrajectory poses -/st kept last_frame.
split=> //; rewrite built /=.
by rewrite /Duration !big_cons big_nil /= addr0 add0r.
Qed.

(** *** Requests that are turned down *)

Lemma transform_loop_size (h : Header D) s :
  (size (transform_loop h s).1 <= size s)%N.
Proof.
elim: s h => [|x s IH] h //=.
case: (transformPose h x) => [[h' x']|] //.
by have := IH h'; case: (transform_loop h' s).
Qed.

(** X1: when a transform raises, the request is turned down before any
    trajectory is computed: an error is logged, nothing is published, and
    the trajectory, the elapsed time and the executing flag are left as
    they were, so a trajectory that was executing goes on.  Only
    [waypoints_in_] is overwritten, with as many poses as were asked for. *)
Theorem failed_transform_rejects_request c (req : Request D) :
  (transform_loop (req_header req) (req_poses req)).2 = false ->
  let res := updateWaypoints c req in
  let c' := res.1.1 in
  [/\ res.1.2 = None /\ res.2 = [:: RosError K],
      ctraject_ c' = ctraject_ c,
      current_traj_time_ c' = current_traj_time_ c,
      traj_computed_ c' = traj_computed_ c
    & size (waypoints_in_poses c') = size (req_poses req)].
Proof.
rewrite /updateWaypoints.
have := transform_loop_size (req_header req) (req_poses req).
case: (transform_loop _ _) => out ok /= le_size ->; split=> //=.
by rewrite /stored_poses size_cat size_nseq subnKC.
Qed.

Lemma transform_loop_identity (hb : Header D) s :
  (forall y, transformPose hb y = Some (hb, y)) ->
  transform_loop hb s = (s, true).
Proof. by move=> fixed; elim: s => [|x s IH] //=; rewrite fixed IH. Qed.

(** X2: the stamped pose handed to [transformPose] is also its output, so
    from the second waypoint on the transform starts from the header the
    call before returned.  When that is a header under which the transform
    changes nothing, as the base frame is, only the first waypoint of the
    request is transformed and all the others are stored as they came,
    whatever frame the request named. *)
Theorem only_first_waypoint_is_transformed (h hb : Header D) x x' rest :
  transformPose h x = Some (hb, x') ->
  (forall y, transformPose hb y = Some (hb, y)) ->
  transform_loop h (x :: rest) = (x' :: rest, true).
Proof. by move=> /= -> fixed; rewrite transform_loop_identity. Qed.

(** X8: when the construction fails, the request is answered with failure
    and the generator is left idle with the elapsed time at 0 and an empty
    trajectory: nothing was published, no tick emits a point afterwards,
    and the wait loop of the request ends at once.  This holds whatever the
    generator was doing before, so a trajectory that was executing is
    dropped by a request that fails. *)
Theorem failed_construction_leaves_idle c (req : Request D) c' evs :
  updateWaypoints c req = (c', Some false, evs) ->
  [/\ traj_computed_ c' = false /\ current_traj_time_ c' = 0,
      ctraject_ c' = [::],
      all (fun ev => if ev is SkippingPoint _ then true else false) evs,
      forall n, (ticks n c').2 = [::]
    & forall button, (updateWaypoints_poll c' button).2 = Some true].
Proof.
rewrite /updateWaypoints; case: (transform_loop _ _) => out [] //=.
rewrite /computeTrajectory; set st := waypoint_loop _ _ _.
case: ifP => _; last by case.
case: ifP => _; first by case.
case=> <- <-; split=> //; first by rewrite all_map; apply/allP.
by move=> n; rewrite ticks_idle.
Qed.

(** *** Ticks *)

Lemma grid_shift (t p : R) k : t + p + k%:R * p = t + k.+1%:R * p.
Proof. by rewrite -natr1 mulrDl mul1r addrA [LHS]addrAC. Qed.


(** X10: a tick that finds the elapsed time at or past the duration emits
    nothing, marks the trajectory as no longer computed and puts the
    elapsed time back to 0; no later tick emits anything, and the wait loop
    of the request that started the trajectory then ends with success. *)
Theorem finished_trajectory_goes_idle c n (button : PortRead bool) :
  traj_computed_ c ->
  Duration D (ctraject_ c) <= current_traj_time_ c ->
  let c' := (updateHook c).1 in
  [/\ (updateHook c).2 = [::],
      traj_computed_ c' = false,
      current_traj_time_ c' = 0,
      (ticks n c').2 = [::]
    & (updateWaypoints_poll c' button).2 = Some true].
Proof.
move=> computed; rewrite leNgt /updateHook computed => /negbTE -> /=.
by split=> //; rewrite ticks_idle.
Qed.

(** X11: while a trajectory is executing, one pass of the wait loop cancels
    it exactly when the read of the button port returns a sample that is
    true, a new one or an old one read again; the request then fails, the
    elapsed time is 0 and no later tick emits a point.  A read without data
    never cancels, whatever [button_pressed_] held, and otherwise the
    trajectory, the elapsed time and the flag are untouched. *)
Theorem pressed_button_cancels c (button : PortRead bool) :
  traj_computed_ c ->
  let res := updateWaypoints_poll c button in
  let pressed := read_sample button false in
  [/\ res.2 = if pressed then Some false else None,
      pressed ->
        [/\ traj_computed_ res.1 = false, current_traj_time_ res.1 = 0
          & forall n, (ticks n res.1).2 = [::]]
    & ~~ pressed ->
        [/\ traj_computed_ res.1, ctraject_ res.1 = ctraject_ c
          & current_traj_time_ res.1 = current_traj_time_ c]].
Proof.
move=> computed; rewrite /updateWaypoints_poll computed.
case: button => [|[]|[]] //=; split=> // _; split=> // n;
  by rewrite ticks_idle.
Qed.

(** *** The preview *)

Lemma publish_loop_step fuel (d t : R) :
  t <= d ->
  publish_loop fuel.+1 d t = omap (cons t) (publish_loop fuel d (t + 10%:R^-1)).
Proof. by move=> /= ->. Qed.

Lemma publish_loop_stop fuel (d t : R) :
  d < t -> publish_loop fuel.+1 d t = Some [::].
Proof. by rewrite ltNge /= => /negbTE ->. Qed.

Lemma publish_loop_grid n m (d t : R) :
  (forall k, (k <= n)%N -> t + k%:R / 10%:R <= d) ->
  d < t + n.+1%:R / 10%:R ->
  publish_loop (n.+2 + m) d t = Some [seq t + k%:R / 10%:R | k <- iota 0 n.+1].
Proof.
elim: n t => [|n IH] t inside outside.
  have t_le : t <= d by have := inside 0%N isT; rewrite mul0r addr0.
  rewrite !addSn add0n publish_loop_step // publish_loop_stop /=.
    by move: outside; rewrite -grid_shift mul0r addr0.
  by rewrite mul0r addr0.
have t_le : t <= d by have := inside 0%N isT; rewrite mul0r addr0.
have inside' k : (k <= n)%N -> t + 10%:R^-1 + k%:R / 10%:R <= d.
  by move=> le_k; rewrite grid_shift inside.
have outside' : d < t + 10%:R^-1 + n.+1%:R / 10%:R by rewrite grid_shift.
rewrite addSn publish_loop_step // (IH _ inside' outside').
rewrite /= !mul0r !addr0; congr (Some (_ :: _ :: _)).
  by rewrite -[RHS]grid_shift mul0r addr0.
rewrite -[2%N]/(1 + 1)%N iotaDl -map_comp.
by apply: eq_map => k /=; rewrite grid_shift add1n.
Qed.


End TrajComputeMore.

(** * Further properties of the controller *)

Section CartOptCtrlMore.

Import CartOptCtrl.

Variable R : realFieldType.
Variable K : kdlRotation R.
Variable dof : nat.
Variable D : Deps K dof.

Implicit Types (c : CartOptCtrl D) (inp : Inputs K dof).
Implicit Types (inps : seq (Inputs K dof)).

(** *** Old and new samples *)

(** X13: a period treats a sample that is read again as it treats a new
    one, on the position, the velocity and the trajectory port alike: the
    state after the period and everything sent out are the same.  An old
    trajectory point is taken up again with its velocity and its
    acceleration. *)
Theorem old_samples_are_used_as_new c inp :
  updateHook c (as_new_inputs inp) = updateHook c inp.
Proof. by case: inp => [[|q|q] [|qd|qd] [|pt|pt]]. Qed.

(** *** The desired pose between trajectory points *)

Lemma updateHook_holds_pose c inp :
  has_first_command c ->
  is_NoData (read_status (port_traj_in inp)) ->
  let c' := (updateHook c inp).1 in
  [/\ X_traj c' = X_traj c,
      has_first_command c'
    & has_feedback inp -> Xd_traj c' = Twist_Zero /\ Xdd_traj c' = Twist_Zero].
Proof.
move=> first no_point.
case feedback: (has_feedback inp); last first.
  by rewrite updateHook_no_feedback ?feedback.
move: feedback; rewrite has_feedbackE /updateHook => /negbTE ->.
rewrite /desired no_point first /=.
by case: (solve _ _ _) => [[[ret solver1] initialized1] calls].
Qed.

(** X14: once a first command has been taken, the desired pose stays where
    it is over any run of periods in which the trajectory port has no data,
    with or without joint feedback; in each of those periods that has
    feedback the desired velocity and acceleration are zero. *)
Theorem desired_pose_is_held c inps inp :
  has_first_command c ->
  all (fun inp => is_NoData (read_status (port_traj_in inp))) inps ->
  is_NoData (read_status (port_traj_in inp)) ->
  has_feedback inp ->
  let c' := (updateHook (run c inps) inp).1 in
  [/\ X_traj (run c inps) = X_traj c,
      X_traj c' = X_traj c,
      Xd_traj c' = Twist_Zero
    & Xdd_traj c' = Twist_Zero].
Proof.
move=> first no_points no_point feedback.
have [held first_after] :
  X_traj (run c inps) = X_traj c /\ has_first_command (run c inps).
  elim: inps c first no_points => [|inp1 inps IH] c first //= /andP [np nps].
  have [held1 first1 _] := updateHook_holds_pose first np.
  by have [-> ?] := IH _ first1 nps; rewrite held1.
have [held' _ zero] := updateHook_holds_pose first_after no_point.
have [zero_d zero_dd] := zero feedback.
by split=> //; rewrite held'.
Qed.

(** *** Whole runs *)

Lemma updateHook_counts c inp :
  count (@is_JointTorqueCommand R dof) (updateHook c inp).2 = has_feedback inp
  /\ count (@is_solve R dof) (updateHook c inp).2 = has_feedback inp.
Proof.
case feedback: (has_feedback inp); last first.
  by rewrite updateHook_no_feedback ?feedback.
have [-> _ _ _ _] := updateHook_feedback c feedback.
by rewrite !count_cat; case: (qpoases_initialized c).
Qed.

(** X15: over any run of periods the controller writes as many torque
    vectors, and calls the solver as many times, as there are periods with
    joint feedback. *)
Theorem one_torque_per_feedback_period c inps :
  count (@is_JointTorqueCommand R dof) (run_events c inps)
  = count (@has_feedback R K dof) inps
  /\ count (@is_solve R dof) (run_events c inps)
     = count (@has_feedback R K dof) inps.
Proof.
elim: inps c => [|inp inps IH] c //=.
have [torques solves] := updateHook_counts c inp.
by have [rest_torques rest_solves] := IH (updateHook c inp).1;
   rewrite !count_cat torques solves rest_torques rest_solves.
Qed.

(** X19: as long as the cold start does not succeed the flag stays clear:
    over a run of periods in which [init] never returns
    [SUCCESSFUL_RETURN], every solver call is a cold start again, every
    torque written is the zero vector, and the flag is still clear at the
    end. *)
Theorem failed_cold_start_is_retried c inps :
  ~~ qpoases_initialized c ->
  (forall (solver : SQProblem D) qp,
     ~~ is_SUCCESSFUL_RETURN (SQProblem_init solver qp).1) ->
  all (@QPInit_or_zero_torque R dof) (run_events c inps)
  /\ ~~ qpoases_initialized (run c inps).
Proof.
move=> cold never; elim: inps c cold => [|inp inps IH] c cold //=.
have [events cold1] :
  all (@QPInit_or_zero_torque R dof) (updateHook c inp).2
  /\ ~~ qpoases_initialized (updateHook c inp).1.
  case feedback: (has_feedback inp); last first.
    by rewrite updateHook_no_feedback ?feedback.
  have failed : is_SUCCESSFUL_RETURN (period_ret c inp) = false.
    rewrite /period_ret /solve cold; apply/negbTE.
    by have := never (qpoases_solver c) (period_qp c inp); case: (SQProblem_init _ _).
  have [-> _ _ _ ->] := updateHook_feedback c feedback.
  by rewrite (negbTE cold) /torque_command failed /= eqxx.
by have [rest cold_end] := IH _ cold1; rewrite all_cat events rest.
Qed.

(** *** The quadratic program *)

Lemma least_squares_objective (a : 'M[R]_(6, dof)) (b : 'cV[R]_6)
  (x : 'cV[R]_dof) :
  2%:R^-1 * (x^T *m (2%:R *: a^T *m a) *m x) 0 0
  + (x^T *m (2%:R *: a^T *m b)) 0 0
  = sqnorm (a *m x + b) - sqnorm b.
Proof.
have xa : x^T *m a^T = (a *m x)^T by rewrite trmx_mul.
have -> : x^T *m (2%:R *: a^T *m a) *m x = 2%:R *: ((a *m x)^T *m (a *m x)).
  by rewrite -scalemxAl -scalemxAr -scalemxAl mulmxA xa -mulmxA.
have -> : x^T *m (2%:R *: a^T *m b) = 2%:R *: ((a *m x)^T *m b).
  by rewrite -scalemxAl -scalemxAr mulmxA xa.
move: (a *m x) => y {xa}; rewrite /sqnorm.
have -> : (y + b)^T = y^T + b^T by rewrite [LHS]linearD.
have -> : (y^T + b^T) *m (y + b)
          = y^T *m y + y^T *m b + ((y^T *m b)^T + b^T *m b).
  by rewrite mulmxDl !mulmxDr trmx_mul trmxK.
move: (y^T *m y) (y^T *m b) (b^T *m b) => yy yb bb.
rewrite !mxE mulrA mulVf ?pnatr_eq0 // mul1r.
by rewrite addrA addrK -addrA -mulr2n -[yb 0 0 *+ 2]mulr_natl.
Qed.

(** X16: for every torque [x] the objective handed to the solver,
    [1/2 x^T H x + x^T g], is the squared norm of [a x + b] less the squared
    norm of [b]: minimising it minimises the squared residual of the
    Cartesian acceleration. *)
Theorem qp_objective_is_tracking_residual (arm1 : ChainUtils D)
  (ee : SegmentName D) (Xdd : Twist R) (x : 'cV[R]_dof) :
  qp_objective (build_qp arm1 ee Xdd) x
  = sqnorm (qp_a arm1 ee *m x + qp_b arm1 ee Xdd) - sqnorm (qp_b arm1 ee Xdd).
Proof. exact: least_squares_objective. Qed.

(** The box handed to the solver is symmetric about zero and contains
    the zero torque: for every joint the lower bound is the opposite of the
    upper bound, and the lower bound is at most 0 and the upper bound at
    least 0. *)
Lemma zero_torque_within_bounds (arm1 : ChainUtils D) (ee : SegmentName D)
  (Xdd : Twist R) :
  exists lb ub : 'cV[R]_dof,
    [/\ qp_lb (build_qp arm1 ee Xdd) = Some lb,
        qp_ub (build_qp arm1 ee Xdd) = Some ub,
        lb = - ub
      & forall i, lb i 0 <= 0 <= ub i 0].
Proof.
exists (torque_min R dof), (torque_max R dof); split=> // i.
by rewrite /torque_min !mxE oppr_le0 ler0n.
Qed.

(** *** The gain terms *)

Lemma cross_orthogonal (k e : Vector R) : dot (Vector_mul k e) e = 0.
Proof.
rewrite /dot /Vector_mul /= !mulrBl.
rewrite [vy k * vz e * vx e]mulrAC [vz k * vx e * vy e]mulrAC.
rewrite [vx k * vy e * vz e]mulrAC.
by rewrite [X in X + _ = _]addrA subrK addrA subrK subrr.
Qed.

Lemma cross_zero (k : Vector R) : Vector_mul k Vector_Zero = Vector_Zero.
Proof. by rewrite /Vector_mul /= !mulr0 subrr. Qed.

(** X17: the gains enter the desired acceleration through the product of
    KDL vectors, which is the cross product.  So with a zero velocity
    error, what the proportional gain adds to the feedforward acceleration
    is orthogonal to the pose error, on the translational and on the
    rotational half alike: it has no component along the error. *)
Theorem proportional_term_is_orthogonal_to_error (kp_ kd_ Xdd_traj1 X_err1 :
  Twist R) :
  let acc := desired_acceleration kp_ kd_ Xdd_traj1 X_err1 Twist_Zero in
  dot (Vector_sub (vel acc) (vel Xdd_traj1)) (vel X_err1) = 0
  /\ dot (Vector_sub (rot acc) (rot Xdd_traj1)) (rot X_err1) = 0.
Proof.
have sub_add (u v : Vector R) :
  Vector_sub (Vector_add (Vector_add u v) Vector_Zero) u = v.
  case: u v => [ux uy uz] [wx wy wz]; rewrite /Vector_sub /Vector_add /=.
  by rewrite !addr0 ![_ + _ - _]addrC !addKr.
by rewrite /desired_acceleration /= !cross_zero !sub_add !cross_orthogonal.
Qed.

(** *** Configuring again *)

Lemma updateHook_solver c inp :
  has_feedback inp ->
  qpoases_solver (updateHook c inp).1 = period_solver c inp.
Proof.
rewrite has_feedbackE /updateHook => /negbTE ->.
rewrite /period_solver /period_qp /period_Xdd_des /refreshed_arm.
case: (desired _ _ _) => [[[[pt X_traj1] Xd_traj1] Xdd_traj1] has_first1].
by case: (solve _ _ _) => [[[ret solver1] initialized1] calls].
Qed.

(** X18: a configure hook that succeeds puts a new solver in place, zeroes
    the joint vectors and leaves the warm start flag alone.  So when the
    flag was set, the first period with feedback after it calls [hotstart],
    not [init], and it calls it on the new solver, which has never been
    initialised. *)
Theorem reconfigure_hot_starts_new_solver c inp :
  qpoases_initialized c ->
  (arm_init (arm c)).1 ->
  has_feedback inp ->
  let c1 := (configureHook c).1.2 in
  let qp := period_qp c1 inp in
  [/\ (configureHook c).1.1 = true,
      qpoases_solver c1 = SQProblem_new D,
      joint_torque_out c1 = 0 /\ qpoases_initialized c1,
      [seq e <- (updateHook c1 inp).2 | is_solve e] = [:: QPHotstart qp]
    & qpoases_solver (updateHook c1 inp).1
      = (SQProblem_hotstart (SQProblem_new D) qp).2].
Proof.
move=> initialized ok feedback c1 qp.
have [succeeded new_solver zeroed flag] :
  [/\ (configureHook c).1.1 = true, qpoases_solver c1 = SQProblem_new D,
      joint_torque_out c1 = 0 & qpoases_initialized c1].
  by rewrite /c1 /configureHook; case: (arm_init _) ok => [[] arm1].
split=> //.
  have [-> _ _ _ _] := updateHook_feedback c1 feedback.
  by rewrite flag filter_cat.
rewrite updateHook_solver // /period_solver /solve flag new_solver /= -/qp.
by case: (SQProblem_hotstart _ _).
Qed.

End CartOptCtrlMore.

(** * The further properties on explicit inputs *)

Section Numerals.

Variable R : realFieldType.

Lemma inv_nat_gt0 (n : nat) : (0 < n)%N -> 0 < n%:R^-1 :> R.
Proof. by move=> n_gt0; rewrite invr_gt0 ltr0n. Qed.

Lemma inv_nat_lt (m n : nat) :
  (0 < m)%N -> (m < n)%N -> n%:R^-1 < m%:R^-1 :> R.
Proof.
move=> m_gt0 lt_mn; rewrite ltf_pV2 ?ltr_nat // posrE ltr0n //.
exact: ltn_trans lt_mn.
Qed.

Lemma inv_nat_le1 (n : nat) : (0 < n)%N -> n%:R^-1 <= 1 :> R.
Proof. by move=> n_gt0; rewrite invf_le1 ?ltr0n // ler1n. Qed.

Lemma five_tenths_le_half : 5%:R / 10%:R <= 2%:R^-1 :> R.
Proof.
rewrite ler_pdivrMr ?ltr0n // mulrC ler_pdivlMr ?ltr0n //.
by rewrite -natrM ler_nat.
Qed.

Lemma half_lt_six_tenths : 2%:R^-1 < 6%:R / 10%:R :> R.
Proof.
rewrite ltr_pdivlMr ?ltr0n // mulrC ltr_pdivrMr ?ltr0n //.
by rewrite -natrM ltr_nat.
Qed.

(** The test of line 129 holds for a difference along x that is below the
    tolerance. *)
Lemma too_similar_along_x (d : R) (w : Vector R) :
  `|d| < 100%:R^-1 -> TrajCompute.too_similar (mkTwist (mkVector d 0 0) w).
Proof.
move=> small; rewrite /TrajCompute.too_similar /Twist_get /= normr0.
by rewrite small inv_nat_gt0.
Qed.

End Numerals.

Section TrajComputeMoreRuns.

Import TrajCompute Doubles.

(** [failed_transform_rejects_request] on a generator that is executing
    the hold, with a transform that raises. *)
Lemma failed_transform_rejects_request_witness :
  let c := traj_component_of no_transform true [::] hold_only 0 true in
  let req := @mkRequest _ _ (traj_deps_of no_transform true) false
               [:: pose 0 0; pose 1 0] in
  (transform_loop (req_header req) (req_poses req)).2 = false
  /\ traj_computed_ (updateWaypoints c req).1.1 = true.
Proof.
move=> c req.
have raised : (transform_loop (req_header req) (req_poses req)).2 = false by [].
split; first exact: raised.
by have [_ _ _ -> _] := failed_transform_rejects_request c raised.
Defined.

(** [only_first_waypoint_is_transformed] on two poses at the origin of a
    frame other than the base frame: the first is moved, the second is
    not. *)
Lemma only_first_waypoint_is_transformed_witness :
  [/\ transformPose (d := traj_deps_of shift_into_base true) false (pose 0 0)
      = Some (true, @mkFrame rat planar 0 (Vector_add (mkVector 0 0 0) (mkVector 1 0 0))),
      forall y, transformPose (d := traj_deps_of shift_into_base true) true y
                = Some (true, y)
    & @transform_loop _ _ (traj_deps_of shift_into_base true) false
        [:: pose 0 0; pose 0 0]
      = ([:: @mkFrame rat planar 0 (Vector_add (mkVector 0 0 0) (mkVector 1 0 0));
             pose 0 0], true)].
Proof.
have first : transformPose (d := traj_deps_of shift_into_base true) false
               (pose 0 0)
             = Some (true, @mkFrame rat planar 0
                             (Vector_add (mkVector 0 0 0) (mkVector 1 0 0))).
  by [].
have fixed y : transformPose (d := traj_deps_of shift_into_base true) true y
               = Some (true, y) by [].
split; [exact: first | exact: fixed |].
exact: (@only_first_waypoint_is_transformed _ _
          (traj_deps_of shift_into_base true) false true (pose 0 0) _
          [:: pose 0 0] first fixed).
Defined.

(** [hold_at_last_requested_pose] on the request of
    [hold_pose_off_path_end]. *)
Lemma hold_at_last_requested_pose_witness :
  let last_pose := pose (1 + 200%:R^-1) 0 in
  let c := traj_component [:: pose 0 0; pose 1 0; last_pose] 0 false in
  [/\ waypoints_in_poses c = rcons [:: pose 0 0; pose 1 0] last_pose,
      (computeTrajectory c).1.1
    & nth (Trajectory_Stationary 0 (pose 0 0)) (computeTrajectory c).1.2 1
      = Trajectory_Stationary 2%:R^-1 last_pose].
Proof.
move=> last_pose c.
have poses : waypoints_in_poses c = rcons [:: pose 0 0; pose 1 0] last_pose.
  by [].
have built : (computeTrajectory c).1.1 by [].
split; [exact: poses | exact: built |].
by rewrite (hold_at_last_requested_pose poses built).
Defined.

(** [computeTrajectory_rounded] on two waypoints a unit apart. *)
Lemma computeTrajectory_rounded_witness :
  let c := traj_component [:: pose 0 0; pose 1 0] 0 false in
  let st := @waypoint_loop _ _ traj_deps 0 (loop_init planar)
              (waypoints_in_poses c) in
  [/\ (1 < size (waypoints st))%N,
      RoundedComposite_ok traj_deps (radius_ c) (eqradius_ c) (waypoints st)
    & Duration traj_deps (computeTrajectory c).1.2 = 1 + 2%:R^-1].
Proof.
move=> c st.
have two : (1 < size (waypoints st))%N by [].
have feasible :
  RoundedComposite_ok traj_deps (radius_ c) (eqradius_ c) (waypoints st).
  by [].
split; [exact: two | exact: feasible |].
by have [_ _ -> _] := computeTrajectory_rounded two feasible.
Defined.

Lemma near_origin (x : rat) :
  0 < x -> x < 100%:R^-1 ->
  too_similar (diff_Frame (pose x 0) (pose 0 0)).
Proof.
move=> x_gt0 x_lt.
have -> : diff_Frame (pose x 0) (pose 0 0)
          = mkTwist (mkVector (- x) 0 0) (mkVector 0 0 0).
  by rewrite /diff_Frame /diff_Vector /Vector_sub /= !subrr sub0r.
by apply: too_similar_along_x; rewrite normrN gtr0_norm.
Qed.

(** [request_within_tolerance_is_stationary] on three poses 5 mm and
    6.25 mm from the first. *)
Lemma request_within_tolerance_is_stationary_witness :
  let rest := [:: pose (200%:R^-1) 0; pose (160%:R^-1) 0] in
  let c := traj_component (pose 0 0 :: rest) 0 false in
  [/\ waypoints_in_poses c = pose 0 0 :: rest,
      all (fun x => too_similar (diff_Frame x (pose 0 0))) rest
    & Duration traj_deps (computeTrajectory c).1.2 = 2%:R^-1].
Proof.
move=> rest c.
have poses : waypoints_in_poses c = pose 0 0 :: rest by [].
have near : all (fun x : Pose traj_deps =>
                   too_similar (diff_Frame (poseMsgToKDL x)
                                  (poseMsgToKDL (d := traj_deps) (pose 0 0))))
              rest.
  apply/andP; split.
    by apply: near_origin; [exact: inv_nat_gt0 | exact: inv_nat_lt].
  apply/andP; split; last by [].
  by apply: near_origin; [exact: inv_nat_gt0 | exact: inv_nat_lt].
split; [exact: poses | exact: near |].
by have [_ _ _ ->] := request_within_tolerance_is_stationary poses near.
Defined.

(** [failed_construction_leaves_idle] on a generator that is executing the
    hold and gets a request whose rounded path is not feasible. *)
Lemma failed_construction_leaves_idle_witness :
  let c := traj_component_of shift_into_base false [::] hold_only 0 true in
  let req := @mkRequest _ _ (traj_deps_of shift_into_base false) true
               [:: pose 0 0; pose 1 0] in
  [/\ traj_computed_ c,
      (updateWaypoints c req).1.2 = Some false
    & traj_computed_ (updateWaypoints c req).1.1 = false].
Proof.
move=> c req.
have answer : updateWaypoints c req
              = ((updateWaypoints c req).1.1, Some false,
                 (updateWaypoints c req).2) by [].
have executing : traj_computed_ c by [].
split; [exact: executing | by rewrite answer |].
by have [[-> _] _ _ _ _] := failed_construction_leaves_idle answer.
Defined.

Lemma hold_only_duration transform feasible :
  Duration (traj_deps_of transform feasible) hold_only = 2%:R^-1.
Proof. by rewrite /Duration big_cons big_nil addr0. Qed.


(** [finished_trajectory_goes_idle] on the hold with a second elapsed. *)
Lemma finished_trajectory_goes_idle_witness :
  let c := traj_component_of shift_into_base true [::] hold_only 1 true in
  [/\ traj_computed_ c,
      Duration (traj_deps_of shift_into_base true) (ctraject_ c)
      <= current_traj_time_ c
    & traj_computed_ (updateHook c).1 = false].
Proof.
move=> c.
have computed : traj_computed_ c by [].
have over : Duration (traj_deps_of shift_into_base true) (ctraject_ c)
            <= current_traj_time_ c.
  by rewrite hold_only_duration; exact: inv_nat_le1.
split; [exact: computed | exact: over |].
by have [_ -> _ _ _] :=
  finished_trajectory_goes_idle 0 (ReadNoData : PortRead bool) computed over.
Defined.

(** [pressed_button_cancels] on an old sample of a pressed button. *)
Lemma pressed_button_cancels_witness :
  let c := traj_component_of shift_into_base true [::] hold_only 0 true in
  traj_computed_ c
  /\ (updateWaypoints_poll c (ReadOldData true)).2 = Some false.
Proof.
move=> c.
have computed : traj_computed_ c by [].
split; first exact: computed.
by have [-> _ _] := pressed_button_cancels (ReadOldData true) computed.
Defined.


End TrajComputeMoreRuns.

Section CartOptCtrlMoreRuns.

Import CartOptCtrl Doubles.

(** [desired_pose_is_held] on a controller holding the pose at x = 1, over
    a period without any data and a period with joint feedback only. *)
Lemma desired_pose_is_held_witness :
  let c := ctrl_component 0 false true in
  let nothing := @mkInputs _ planar 7 ReadNoData ReadNoData ReadNoData in
  [/\ has_first_command c,
      all (fun inp => is_NoData (read_status (port_traj_in inp)))
          [:: nothing; feedback_only],
      is_NoData (read_status (port_traj_in feedback_only)),
      has_feedback feedback_only
    & X_traj (updateHook (run c [:: nothing; feedback_only]) feedback_only).1
      = pose 1 0].
Proof.
move=> c nothing.
have first : has_first_command c by [].
have no_points : all (fun inp : Inputs planar 7 =>
                        is_NoData (read_status (port_traj_in inp)))
                   [:: nothing; feedback_only] by [].
have no_point : is_NoData (read_status (port_traj_in feedback_only)) by [].
have feedback : has_feedback feedback_only by [].
split; [exact: first | exact: no_points | exact: no_point | exact: feedback |].
by have [_ -> _ _] := desired_pose_is_held first no_points no_point feedback.
Defined.

(** [reconfigure_hot_starts_new_solver] on a controller whose flag is
    set. *)
Lemma reconfigure_hot_starts_new_solver_witness :
  let c := ctrl_component 4 true true in
  let c1 := (configureHook c).1.2 in
  [/\ qpoases_initialized c,
      (arm_init (d := ctrl_deps) (arm c)).1,
      has_feedback feedback_only
    & [seq e <- (updateHook c1 feedback_only).2 | is_solve e]
      = [:: QPHotstart (period_qp c1 feedback_only)]
      /\ qpoases_solver c1 = 0%N].
Proof.
move=> c c1.
have initialized : qpoases_initialized c by [].
have ok : (arm_init (d := ctrl_deps) (arm c)).1 by [].
have feedback : has_feedback feedback_only by [].
split; [exact: initialized | exact: ok | exact: feedback |].
by have [_ -> _ -> _] := reconfigure_hot_starts_new_solver initialized ok feedback.
Defined.

(** [failed_cold_start_is_retried] on two periods of a solver whose cold
    start always fails. *)
Lemma failed_cold_start_is_retried_witness :
  let c := ctrl_component_failing in
  [/\ ~~ qpoases_initialized c,
      forall (solver : SQProblem ctrl_deps_failing) qp,
        ~~ is_SUCCESSFUL_RETURN (SQProblem_init solver qp).1
    & ~~ qpoases_initialized (run c [:: feedback_only; feedback_only])].
Proof.
move=> c.
have cold : ~~ qpoases_initialized c by [].
have never (solver : SQProblem ctrl_deps_failing) qp :
  ~~ is_SUCCESSFUL_RETURN (SQProblem_init solver qp).1 by [].
split; [exact: cold | exact: never |].
by have [_ ->] :=
  failed_cold_start_is_retried [:: feedback_only; feedback_only] cold never.
Defined.

End CartOptCtrlMoreRuns.
